(** * secure-logchain: the retrieval handler of server/server.js and the
      ingestion pipeline of services/stream-logs.js

    Part I embeds the code: a few JavaScript primitives, the SecureLog
    contract as the server reaches it through web3, the two request
    handlers of the server, and the streaming service with its module-level
    variables as an explicit state.  Part II states and proves the
    properties. *)

From Stdlib Require Import ZArith List String Ascii Bool Lia Sorted DecimalString.
Import ListNotations.
Open Scope string_scope.
Open Scope Z_scope.

(* ================================================================= *)
(** * Part I.  The embedding                                          *)
(* ================================================================= *)

(** ** JavaScript primitives

    Strings are sequences of code units below 256, which is what [string]
    holds. *)
Module JS.

(** A string is truthy when it is not the empty string. *)
Definition truthyString (s : string) : bool :=
  match s with EmptyString => false | String _ _ => true end.

(** The code units below 256 that [String.prototype.trim] removes:
    TAB, LF, VT, FF, CR, SP and NBSP. *)
Definition isWhiteSpace (c : ascii) : bool :=
  let n := N_of_ascii c in
  ((9 <=? n) && (n <=? 13) || (n =? 32) || (n =? 160))%N.

Fixpoint trimStart (s : string) : string :=
  match s with
  | EmptyString => EmptyString
  | String c s' => if isWhiteSpace c then trimStart s' else s
  end.

Fixpoint trimEnd (s : string) : string :=
  match s with
  | EmptyString => EmptyString
  | String c s' =>
      match trimEnd s' with
      | EmptyString => if isWhiteSpace c then EmptyString else String c EmptyString
      | t => String c t
      end
  end.

(** [s.trim()] *)
Definition trim (s : string) : string := trimEnd (trimStart s).

(** [s.includes(needle)] *)
Fixpoint includes (s needle : string) : bool :=
  String.prefix needle s ||
  match s with
  | EmptyString => false
  | String _ s' => includes s' needle
  end.

(** [s.split('\n')]: never empty; the last element is the text after the
    last newline. *)
Fixpoint splitLines (s : string) : list string :=
  match s with
  | EmptyString => [EmptyString]
  | String c s' =>
      if Ascii.eqb c "010"%char then EmptyString :: splitLines s'
      else match splitLines s' with
           | [] => [String c EmptyString]
           | l :: ls => String c l :: ls
           end
  end.

(** [BigInt.prototype.toString()] on a block timestamp. *)
Definition toString (z : Z) : string := NilZero.string_of_int (Z.to_int z).

(** The values a parsed JSON body can hold in its [message] field;
    [Undefined] is the absent field. *)
Inductive value :=
| Undefined
| Null
| Boolean (b : bool)
| Number (n : Z)
| Str (s : string)
| Object.

Definition truthy (v : value) : bool :=
  match v with
  | Undefined | Null => false
  | Boolean b => b
  | Number n => negb (n =? 0)
  | Str s => truthyString s
  | Object => true
  end.

Definition typeof (v : value) : string :=
  match v with
  | Undefined => "undefined"
  | Null => "object"
  | Boolean _ => "boolean"
  | Number _ => "number"
  | Str _ => "string"
  | Object => "object"
  end.

(** A thrown [Error]: its optional [code] and its [message]. *)
Record Error := mkError { code : option string; message : string }.

(** How an awaited call settles. *)
Inductive settled (A : Type) :=
| Fulfilled (a : A)
| Rejected (e : Error).
Arguments Fulfilled {A} a.
Arguments Rejected {A} e.

End JS.

(** ** contracts/SecureLog.sol, seen through web3 *)
Module SecureLog.

Record LogEntry := mkLogEntry {
  message : string;
  sender : string;
  timestamp : Z
}.

(** [LogEntry[] public logs] *)
Definition storage := list LogEntry.

(** [addLog(message)] *)
Definition addLog (m from : string) (blockTime : Z) (logs : storage) : storage :=
  (logs ++ [mkLogEntry m from blockTime])%list.

Record Receipt := mkReceipt { transactionHash : string; blockNumber : Z }.

(** The calls the server makes on [contract.methods], each with the way it
    settles.  Every [logs(i).call()] is a request of its own to the node:
    [logs n i] is how the read of index [i] settles when it is call number
    [n] (from 0) of the handler, so two reads of one index need not
    agree. *)
Record Contract := mkContract {
  logs : nat -> Z -> JS.settled LogEntry;
  getLogs : JS.settled (list LogEntry);
  estimateGas : string -> JS.settled Z;
  send : string -> Z -> JS.settled Receipt
}.

Definition revert : JS.Error :=
  JS.mkError None "Returned error: VM Exception while processing transaction: revert".

(** The getter of a public array: the entry, or a revert outside the
    array. *)
Definition logsGetter (st : storage) (i : Z) : JS.settled LogEntry :=
  if (0 <=? i) && (i <? Z.of_nat (List.length st)) then
    match nth_error st (Z.to_nat i) with
    | Some e => JS.Fulfilled e
    | None => JS.Rejected revert
    end
  else JS.Rejected revert.

(** A node that answers every call, holding the contract in state [st]
    for the whole request.  Its answers are those SecureLog.sol computes;
    the gas a node meters is not modelled, so [getLogs] is answered as it
    is when the gas given suffices.  The gas estimate and the receipt are
    those of some node, their values play no role. *)
Definition deployed (st : storage) : Contract :=
  {| logs := fun _ => logsGetter st;
     getLogs := JS.Fulfilled st;
     estimateGas := fun _ => JS.Fulfilled 50000;
     send := fun _ _ => JS.Fulfilled (mkReceipt "0x0" (Z.of_nat (List.length st))) |}.

(** A node that refuses every call with error [e]. *)
Definition unreachable (e : JS.Error) : Contract :=
  {| logs := fun _ _ => JS.Rejected e;
     getLogs := JS.Rejected e;
     estimateGas := fun _ => JS.Rejected e;
     send := fun _ _ => JS.Rejected e |}.

(** [n] entries, all with a non-empty message. *)
Definition dense (n : Z) : storage :=
  repeat (mkLogEntry "log" "0xA" 1762431331) (Z.to_nat n).

End SecureLog.

(** ** server/server.js *)
Module Server.
Import SecureLog.

(** The calls that reach the ledger, newest first in every trace below;
    [ReadAll gas] is [getLogs().call({ gas })]. *)
Inductive LedgerCall :=
| ReadLog (i : Z)
| ReadAll (gas : Z)
| EstimateGas (m : string)
| SendAddLog (m : string) (gas : Z).

Record FormattedLog := mkFormattedLog {
  index : Z;
  message : string;
  sender : string;
  timestamp : string
}.

Inductive Response :=
| LogsJson (count : Z) (displayed : Z) (logs : list FormattedLog)
| AddedJson (transactionHash : string) (blockNumber : string)
| ErrorJson (statusCode : Z) (error : string) (message : string).

(** The catch clause shared by both handlers. *)
Definition errorResponse (what : string) (error : JS.Error) : Response :=
  let m := JS.message error in
  if JS.includes m "ETIMEDOUT" || JS.includes m "ECONNREFUSED" ||
     JS.includes m "connect" || JS.includes m "fetch failed"
  then ErrorJson 503 what
         "Cannot connect to Ganache. Please make sure Ganache is running on port 7545."
  else ErrorJson 500 what m.

(** *** POST /add-log *)
Definition invalidRequest : Response :=
  let quote := String (ascii_of_nat 34) EmptyString in
  ErrorJson 400 "Invalid request"
    ("Please provide a " ++ quote ++ "message" ++ quote ++ " field as a string").

Definition addLogHandler (c : Contract) (message : JS.value)
  : Response * list LedgerCall :=
  if negb (JS.truthy message) || negb (JS.typeof message =? "string")%string then
    (invalidRequest, [])
  else
    match message with
    | JS.Str m =>
        match estimateGas c m with
        | JS.Rejected error => (errorResponse "Failed to add log" error, [EstimateGas m])
        | JS.Fulfilled gasEstimate =>
            let gasWithBuffer := gasEstimate + 100000 in
            let minGas := 200000 in
            let finalGas := if gasWithBuffer >? minGas then gasWithBuffer else minGas in
            match send c m finalGas with
            | JS.Rejected error =>
                (errorResponse "Failed to add log" error,
                 [SendAddLog m finalGas; EstimateGas m])
            | JS.Fulfilled receipt =>
                (AddedJson (transactionHash receipt) (JS.toString (blockNumber receipt)),
                 [SendAddLog m finalGas; EstimateGas m])
            end
        end
    | _ => (invalidRequest, [])
    end.

(** *** GET /logs

    Each loop carries a step budget [fuel]; [None] is a loop that used it
    up.  [getLogsHandler_returns] shows the budgets below are never used
    up.  [calls] collects the reads issued, newest first, so the next read
    is call number [List.length calls]. *)

(** [for (let testIndex = 10000; testIndex >= 0; testIndex -= 500)];
    the result is [upperBound]. *)
Fixpoint findUpperBound (fuel : nat) (c : Contract) (testIndex : Z)
    (calls : list LedgerCall) : option (Z * list LedgerCall) :=
  if testIndex >=? 0 then
    match fuel with
    | O => None
    | S fuel' =>
        let calls' := ReadLog testIndex :: calls in
        match logs c (List.length calls) testIndex with
        | JS.Fulfilled testLog =>
            if JS.truthyString (SecureLog.message testLog)
            then Some (testIndex, calls')
            else findUpperBound fuel' c (testIndex - 500) calls'
        | JS.Rejected _ => findUpperBound fuel' c (testIndex - 500) calls'
        end
    end
  else Some (-1, calls).

(** [while (low <= high)]; the result is [highestIndex]. *)
Fixpoint binarySearch (fuel : nat) (c : Contract) (low high highestIndex : Z)
    (calls : list LedgerCall) : option (Z * list LedgerCall) :=
  if low <=? high then
    match fuel with
    | O => None
    | S fuel' =>
        let mid := (low + high) / 2 in
        let calls' := ReadLog mid :: calls in
        match logs c (List.length calls) mid with
        | JS.Fulfilled testLog =>
            if JS.truthyString (SecureLog.message testLog)
            then binarySearch fuel' c (mid + 1) high mid calls'
            else binarySearch fuel' c low (mid - 1) highestIndex calls'
        | JS.Rejected _ => binarySearch fuel' c low (mid - 1) highestIndex calls'
        end
    end
  else Some (highestIndex, calls).

(** [for (let i = 0; i < 5000; i++)]; the result is [highestIndex]. *)
Fixpoint scanForward (fuel : nat) (c : Contract) (i highestIndex : Z)
    (calls : list LedgerCall) : option (Z * list LedgerCall) :=
  if i <? 5000 then
    match fuel with
    | O => None
    | S fuel' =>
        let calls' := ReadLog i :: calls in
        match logs c (List.length calls) i with
        | JS.Fulfilled log =>
            if JS.truthyString (SecureLog.message log)
            then scanForward fuel' c (i + 1) i calls'
            else Some (highestIndex, calls')
        | JS.Rejected _ => Some (highestIndex, calls')
        end
    end
  else Some (highestIndex, calls).

(** The index discovery: [-1] when no entry was found. *)
Definition locateHighestIndex (c : Contract) : option (Z * list LedgerCall) :=
  match findUpperBound 21 c 10000 [] with
  | None => None
  | Some (upperBound, calls) =>
      if upperBound >=? 0
      then binarySearch 1001 c upperBound (upperBound + 1000) (-1) calls
      else scanForward 5000 c 0 (-1) calls
  end.

Definition format (i : Z) (log : LogEntry) : FormattedLog :=
  {| index := i;
     message := SecureLog.message log;
     sender := SecureLog.sender log;
     timestamp := JS.toString (SecureLog.timestamp log) |}.

(** [for (let i = endIndex; i >= startIndex && i >= 0; i--)] *)
Fixpoint fetchBackwards (fuel : nat) (c : Contract) (i startIndex : Z)
    (formattedLogs : list FormattedLog) (calls : list LedgerCall)
  : option (list FormattedLog * list LedgerCall) :=
  if (i >=? startIndex) && (i >=? 0) then
    match fuel with
    | O => None
    | S fuel' =>
        let calls' := ReadLog i :: calls in
        match logs c (List.length calls) i with
        | JS.Fulfilled log =>
            if JS.truthyString (SecureLog.message log)
            then fetchBackwards fuel' c (i - 1) startIndex
                   (formattedLogs ++ [format i log])%list calls'
            else fetchBackwards fuel' c (i - 1) startIndex formattedLogs calls'
        | JS.Rejected _ => fetchBackwards fuel' c (i - 1) startIndex formattedLogs calls'
        end
    end
  else Some (formattedLogs, calls).

(** The body of the inner [try]: [(totalCount, formattedLogs)].  Every
    awaited call in it sits in a [try/catch] of its own, so it always
    completes normally. *)
Definition fetchIndividually (c : Contract)
  : option (JS.settled (Z * list FormattedLog) * list LedgerCall) :=
  match locateHighestIndex c with
  | None => None
  | Some (highestIndex, calls) =>
      let startIndex := Z.max 0 (highestIndex - 99) in
      let endIndex := highestIndex in
      match fetchBackwards 100 c endIndex startIndex [] calls with
      | None => None
      | Some (formattedLogs, calls') =>
          Some (JS.Fulfilled (highestIndex + 1, formattedLogs), calls')
      end
  end.

(** [logs.map((log, index) => ...)] *)
Fixpoint formatAll (index : Z) (logs : list LogEntry) : list FormattedLog :=
  match logs with
  | [] => []
  | log :: rest => format index log :: formatAll (index + 1) rest
  end.

(** [gas: '8000000'] *)
Definition fallbackGas : Z := 8000000.

(** The catch clause of the inner [try]: the one call
    [getLogs().call({ gas: '8000000' })], with the way [getLogs c] settles
    it under that cap; a call that runs out of gas is one that is
    rejected. *)
Definition bulkFallback (c : Contract)
  : JS.settled (Z * list FormattedLog) * LedgerCall :=
  (match getLogs c with
   | JS.Fulfilled logs =>
       let formattedLogs := formatAll 0 logs in
       JS.Fulfilled (Z.of_nat (List.length formattedLogs), rev formattedLogs)
   | JS.Rejected gasError =>
       JS.Rejected (JS.mkError None ("Failed to retrieve logs: " ++ JS.message gasError))
   end,
   ReadAll fallbackGas).

Definition respond (r : Z * list FormattedLog) : Response :=
  let (totalCount, formattedLogs) := r in
  let limitedLogs := firstn 100 formattedLogs in
  LogsJson totalCount (Z.of_nat (List.length limitedLogs)) limitedLogs.

Definition getLogsHandler (c : Contract) : option (Response * list LedgerCall) :=
  match fetchIndividually c with
  | None => None
  | Some (JS.Fulfilled r, calls) => Some (respond r, calls)
  | Some (JS.Rejected _, calls) =>
      match bulkFallback c with
      | (JS.Fulfilled r, call) => Some (respond r, call :: calls)
      | (JS.Rejected error, call) =>
          Some (errorResponse "Failed to retrieve logs" error, call :: calls)
      end
  end.

End Server.

(** ** services/stream-logs.js

    The module-level variables are the fields of [State].  The environment
    is explicit as well: [clock n] is what the [n]-th call of [Date.now()]
    returns, and the state records how many calls were made, how many
    [fetch] promises and [setTimeout] timers are pending, and what the
    service emitted. *)
Module StreamLogs.

Definition ERROR_THROTTLE_MS : Z := 5000.
Definition SEND_INTERVAL_MS : Z := 1000.
Definition MAX_QUEUE_SIZE : nat := 50.
Definition MAX_LOGS_PER_DAY : Z := 1000.
Definition DAY_MS : Z := 24 * 60 * 60 * 1000.
Definition HOUR_MS : Z := 60 * 60 * 1000.

(** The lines the service writes to the console. *)
Inductive Notice :=
| EchoLine (line : string)
| DailyLimitReached
| ServerReconnected
| ApiError (text : string)
| ServerNotAvailable
| NetworkError (text : string).

Definition render (n : Notice) : string :=
  match n with
  | EchoLine line => line
  | DailyLimitReached =>
      "[ERROR] Daily log limit reached (1000 logs/day). Logs will resume tomorrow."
  | ServerReconnected => "[OK] Server reconnected - logs are being sent to blockchain"
  | ApiError text => "[ERROR] API error: " ++ text
  | ServerNotAvailable =>
      "[ERROR] Server not available - logs will be skipped until server is back online"
  | NetworkError text => "[ERROR] Network error: " ++ text
  end.

(** What the service does to the outside.  [Dispatch at m] marks the call
    [sendLogToBlockchain(m)] made by [processLogQueue], with the value it
    has just stored in [lastSentTime]. *)
Inductive Effect :=
| Console (n : Notice)
| Post (message : string)
| SetTimeout (delay : Z)
| Dispatch (at_ : Z) (message : string).

Record State := mkState {
  logBuffer : string;
  serverAvailable : bool;
  lastErrorTime : Z;
  lastSentTime : Z;
  logQueue : list string;
  isStopped : bool;
  dailyLogCount : Z;
  dailyResetTime : Z;
  (* environment *)
  ticks : nat;
  inFlight : nat;
  timers : nat;
  effects : list Effect
}.

Definition set_logBuffer (v : string) (s : State) : State :=
  mkState v (serverAvailable s) (lastErrorTime s) (lastSentTime s) (logQueue s)
    (isStopped s) (dailyLogCount s) (dailyResetTime s)
    (ticks s) (inFlight s) (timers s) (effects s).
Definition set_serverAvailable (v : bool) (s : State) : State :=
  mkState (logBuffer s) v (lastErrorTime s) (lastSentTime s) (logQueue s)
    (isStopped s) (dailyLogCount s) (dailyResetTime s)
    (ticks s) (inFlight s) (timers s) (effects s).
Definition set_lastErrorTime (v : Z) (s : State) : State :=
  mkState (logBuffer s) (serverAvailable s) v (lastSentTime s) (logQueue s)
    (isStopped s) (dailyLogCount s) (dailyResetTime s)
    (ticks s) (inFlight s) (timers s) (effects s).
Definition set_lastSentTime (v : Z) (s : State) : State :=
  mkState (logBuffer s) (serverAvailable s) (lastErrorTime s) v (logQueue s)
    (isStopped s) (dailyLogCount s) (dailyResetTime s)
    (ticks s) (inFlight s) (timers s) (effects s).
Definition set_logQueue (v : list string) (s : State) : State :=
  mkState (logBuffer s) (serverAvailable s) (lastErrorTime s) (lastSentTime s) v
    (isStopped s) (dailyLogCount s) (dailyResetTime s)
    (ticks s) (inFlight s) (timers s) (effects s).
Definition set_isStopped (v : bool) (s : State) : State :=
  mkState (logBuffer s) (serverAvailable s) (lastErrorTime s) (lastSentTime s)
    (logQueue s) v (dailyLogCount s) (dailyResetTime s)
    (ticks s) (inFlight s) (timers s) (effects s).
Definition set_dailyLogCount (v : Z) (s : State) : State :=
  mkState (logBuffer s) (serverAvailable s) (lastErrorTime s) (lastSentTime s)
    (logQueue s) (isStopped s) v (dailyResetTime s)
    (ticks s) (inFlight s) (timers s) (effects s).
Definition set_dailyResetTime (v : Z) (s : State) : State :=
  mkState (logBuffer s) (serverAvailable s) (lastErrorTime s) (lastSentTime s)
    (logQueue s) (isStopped s) (dailyLogCount s) v
    (ticks s) (inFlight s) (timers s) (effects s).
Definition set_ticks (v : nat) (s : State) : State :=
  mkState (logBuffer s) (serverAvailable s) (lastErrorTime s) (lastSentTime s)
    (logQueue s) (isStopped s) (dailyLogCount s) (dailyResetTime s)
    v (inFlight s) (timers s) (effects s).
Definition set_inFlight (v : nat) (s : State) : State :=
  mkState (logBuffer s) (serverAvailable s) (lastErrorTime s) (lastSentTime s)
    (logQueue s) (isStopped s) (dailyLogCount s) (dailyResetTime s)
    (ticks s) v (timers s) (effects s).
Definition set_timers (v : nat) (s : State) : State :=
  mkState (logBuffer s) (serverAvailable s) (lastErrorTime s) (lastSentTime s)
    (logQueue s) (isStopped s) (dailyLogCount s) (dailyResetTime s)
    (ticks s) (inFlight s) v (effects s).
Definition set_effects (v : list Effect) (s : State) : State :=
  mkState (logBuffer s) (serverAvailable s) (lastErrorTime s) (lastSentTime s)
    (logQueue s) (isStopped s) (dailyLogCount s) (dailyResetTime s)
    (ticks s) (inFlight s) (timers s) v.

(** *** A state monad for the statements of the service *)
Definition M (A : Type) : Type := State -> A * State.

Definition ret {A} (a : A) : M A := fun s => (a, s).
Definition bind {A B} (m : M A) (k : A -> M B) : M B :=
  fun s => let (a, s') := m s in k a s'.
Definition get {A} (field : State -> A) : M A := fun s => (field s, s).
Definition put {A} (setter : A -> State -> State) (v : A) : M unit :=
  fun s => (tt, setter v s).
Definition when (b : bool) (m : M unit) : M unit := if b then m else ret tt.

Declare Scope js_scope.
Delimit Scope js_scope with js.
Notation "x <- m ;; k" := (bind m (fun x => k))
  (at level 61, m at next level, right associativity) : js_scope.
Notation "m ;; k" := (bind m (fun _ => k))
  (at level 61, right associativity) : js_scope.
Open Scope js_scope.

Definition emit (e : Effect) : M unit :=
  fun s => (tt, set_effects (e :: effects s) s).
Definition console (n : Notice) : M unit := emit (Console n).

(** [setTimeout(processLogQueue, delay)] *)
Definition setTimeout (delay : Z) : M unit :=
  emit (SetTimeout delay) ;;
  n <- get timers ;; put set_timers (S n).

(** [fetch(API_URL, { method: 'POST', body: JSON.stringify({ message }) })] *)
Definition fetch (message : string) : M unit :=
  emit (Post message) ;;
  n <- get inFlight ;; put set_inFlight (S n).

(** How the promise of one [fetch] settles, as far as the code looks at
    it: [response.ok] with a body; another status whose body carries
    [message]; or a rejection of [fetch] or of [response.json()]. *)
Inductive FetchOutcome :=
| ResponseOk
| ResponseNotOk (message : option string)
| Throws (error : JS.Error).

(** What an [async] call has done when control returns to its caller. *)
Inductive Completion :=
| Returned (v : option bool)
| Awaiting.

Section WithClock.
Variable clock : nat -> Z.

Definition Date_now : M Z :=
  fun s => (clock (ticks s), set_ticks (S (ticks s)) s).

(** [sendLogToBlockchain(message)] up to [await fetch(...)]. *)
Definition sendLogToBlockchain (message : string) : M Completion :=
  stopped <- get isStopped ;;
  if stopped then ret (Returned (Some false)) else
  now <- Date_now ;;
  resetTime <- get dailyResetTime ;;
  when (now >=? resetTime)
    (put set_dailyLogCount 0 ;; put set_dailyResetTime (now + DAY_MS)) ;;
  count <- get dailyLogCount ;;
  if count >=? MAX_LOGS_PER_DAY then
    resetTime <- get dailyResetTime ;;
    let hoursSinceReset := (now - (resetTime - DAY_MS)) / HOUR_MS in
    when (Z.rem hoursSinceReset 1 =? 0) (console DailyLimitReached) ;;
    ret (Returned (Some false))
  else
  if negb (JS.truthyString message) || negb (JS.truthyString (JS.trim message))
  then ret (Returned None)
  else fetch (JS.trim message) ;; ret Awaiting.

(** The test of the catch clause. *)
Definition isConnectionError (error : JS.Error) : bool :=
  match JS.code error with
  | Some c => (c =? "ECONNREFUSED")%string
  | None => false
  end || JS.includes (JS.message error) "fetch failed".

(** [sendLogToBlockchain] from the point where the awaited [fetch] has
    settled; the result is what the promise resolves to. *)
Definition sendLogToBlockchain_resume (outcome : FetchOutcome) : M bool :=
  match outcome with
  | ResponseOk =>
      count <- get dailyLogCount ;;
      put set_dailyLogCount (count + 1) ;;
      available <- get serverAvailable ;;
      when (negb available)
        (console ServerReconnected ;; put set_serverAvailable true) ;;
      ret true
  | ResponseNotOk message =>
      now <- Date_now ;;
      lastError <- get lastErrorTime ;;
      when (now - lastError >? ERROR_THROTTLE_MS)
        (console (ApiError match message with
                           | Some m => if JS.truthyString m then m else "Unknown error"
                           | None => "Unknown error"
                           end) ;;
         put set_lastErrorTime now) ;;
      ret false
  | Throws error =>
      (if isConnectionError error then
         now <- Date_now ;;
         available <- get serverAvailable ;;
         lastError <- get lastErrorTime ;;
         when (available || (now - lastError >? ERROR_THROTTLE_MS))
           (console ServerNotAvailable ;;
            put set_serverAvailable false ;;
            put set_lastErrorTime now)
       else console (NetworkError (JS.message error))) ;;
      ret false
  end.

(** [processLogQueue()]; the promise of the send is not awaited. *)
Definition processLogQueue : M unit :=
  now <- Date_now ;;
  lastSent <- get lastSentTime ;;
  if now - lastSent <? SEND_INTERVAL_MS then
    setTimeout (SEND_INTERVAL_MS - (now - lastSent))
  else
    queue <- get logQueue ;;
    match queue with
    | [] => ret tt
    | message :: rest =>
        put set_logQueue rest ;;
        stamp <- Date_now ;;
        put set_lastSentTime stamp ;;
        emit (Dispatch stamp message) ;;
        sendLogToBlockchain message ;;
        queue' <- get logQueue ;;
        when (0 <? List.length queue')%nat (setTimeout SEND_INTERVAL_MS)
    end.

(** The two statements of [queueLogForSending] that change the queue:
    [if (logQueue.length >= MAX_QUEUE_SIZE) logQueue.shift();
     logQueue.push(message)]. *)
Definition enqueue (message : string) (queue : list string) : list string :=
  ((if (MAX_QUEUE_SIZE <=? List.length queue)%nat then tl queue else queue)
     ++ [message])%list.

(** [queueLogForSending(message)] *)
Definition queueLogForSending (message : string) : M unit :=
  stopped <- get isStopped ;;
  if stopped then ret tt else
  queue <- get logQueue ;;
  put set_logQueue (enqueue message queue) ;;
  processLogQueue.

(** The body of the loop over the complete lines of a chunk. *)
Definition forLine (line : string) : M unit :=
  when (JS.truthyString (JS.trim line))
    (console (EchoLine line) ;; queueLogForSending line).

Fixpoint forEach (lines : list string) : M unit :=
  match lines with
  | [] => ret tt
  | line :: rest => forLine line ;; forEach rest
  end.

(** [logStream.stdout.on('data', ...)] *)
Definition onData (data : string) : M unit :=
  buffer <- get logBuffer ;;
  let lines := JS.splitLines (buffer ++ data) in
  put set_logBuffer (last lines "") ;;
  forEach (removelast lines).

(** [process.on('SIGINT', ...)] and [process.on('SIGTERM', ...)] *)
Definition onSignal : M unit :=
  put set_isStopped true ;;
  put set_logQueue [].

(** What the event loop can run next. *)
Inductive Event :=
| Data (chunk : string)
| TimerFires
| FetchSettles (outcome : FetchOutcome)
| Signal.

Definition step (e : Event) : M unit :=
  match e with
  | Data chunk => onData chunk
  | TimerFires =>
      n <- get timers ;;
      match n with
      | O => ret tt
      | S n' => put set_timers n' ;; processLogQueue
      end
  | FetchSettles outcome =>
      n <- get inFlight ;;
      match n with
      | O => ret tt
      | S n' => put set_inFlight n' ;; sendLogToBlockchain_resume outcome ;; ret tt
      end
  | Signal => onSignal
  end.

Fixpoint run (events : list Event) (s : State) : State :=
  match events with
  | [] => s
  | e :: rest => run rest (snd (step e s))
  end.

(** The state when loading the module ends: [dailyResetTime] took the
    first clock value. *)
Definition initial : State :=
  {| logBuffer := ""; serverAvailable := true; lastErrorTime := 0;
     lastSentTime := 0; logQueue := []; isStopped := false;
     dailyLogCount := 0; dailyResetTime := clock 0%nat + DAY_MS;
     ticks := 1; inFlight := 0; timers := 0; effects := [] |}.

End WithClock.

(** The posts and the dispatch stamps of a state, oldest first. *)
Definition posts (s : State) : list string :=
  flat_map (fun e => match e with Post m => [m] | _ => [] end) (rev (effects s)).

Definition dispatchTimes (s : State) : list Z :=
  flat_map (fun e => match e with Dispatch t _ => [t] | _ => [] end) (rev (effects s)).

Definition notices (s : State) : list Notice :=
  flat_map (fun e => match e with Console n => [n] | _ => [] end) (rev (effects s)).

End StreamLogs.

(** ** Vocabulary of the statements *)

Import SecureLog Server StreamLogs.

(** The reads of [c] do not depend on when they are made: every call
    answers an index as call 0 does. *)
Definition stable (c : Contract) : Prop :=
  forall n i, logs c n i = logs c 0%nat i.

(** The test [log && log.message] of the loops on a settled read; a
    rejected read is caught and counts as absent. *)
Definition populated (r : JS.settled LogEntry) : bool :=
  match r with
  | JS.Fulfilled log => JS.truthyString (SecureLog.message log)
  | JS.Rejected _ => false
  end.

(** Reading index [i] gives an entry with a non-empty message: the read is
    taken as call 0, which for a stable contract is any call. *)
Definition populatedAt (c : Contract) (i : Z) : bool :=
  match logs c 0%nat i with
  | JS.Fulfilled log => JS.truthyString (SecureLog.message log)
  | JS.Rejected _ => false
  end.

(** In the trace [calls] (newest first) the call number [n] was the read
    of index [i], and it gave an entry with a non-empty message. *)
Definition readPopulated (c : Contract) (calls : list LedgerCall) (i : Z) : Prop :=
  exists n, nth_error (rev calls) n = Some (ReadLog i) /\ populated (logs c n i) = true.

(** [h] is the highest populated index of [c]. *)
Definition highestPopulated (c : Contract) (h : Z) : Prop :=
  populatedAt c h = true /\ forall i, h < i -> populatedAt c i = false.

(** Every entry of the array has a non-empty message: the entries occupy
    exactly the indices [0 .. length - 1]. *)
Definition wellFilled (st : storage) : Prop :=
  Forall (fun log => JS.truthyString (SecureLog.message log) = true) st.

(** [hi, hi - 1, ...], [n] indices. *)
Fixpoint downFrom (hi : Z) (n : nat) : list Z :=
  match n with
  | O => []
  | S n' => hi :: downFrom (hi - 1) n'
  end.

(** What the tail reader keeps of index [i]: the formatted entry when the
    read gives a populated one, nothing otherwise; the read is taken as
    call 0, as in [populatedAt]. *)
Definition readAt (c : Contract) (i : Z) : list FormattedLog :=
  match logs c 0%nat i with
  | JS.Fulfilled log =>
      if JS.truthyString (SecureLog.message log) then [format i log] else []
  | JS.Rejected _ => []
  end.

(** The [count] field of a response to GET /logs. *)
Definition reportedCount (r : Response) : option Z :=
  match r with
  | LogsJson count _ _ => Some count
  | _ => None
  end.

(** A string of white space only (the empty string included). *)
Fixpoint whitespaceOnly (s : string) : bool :=
  match s with
  | EmptyString => true
  | String ch s' => JS.isWhiteSpace ch && whitespaceOnly s'
  end.

(** The ledger calls the server makes for the posts of the service. *)
Definition backendCalls (c : Contract) (s : State) : list LedgerCall :=
  flat_map (fun m => snd (addLogHandler c (JS.Str m))) (posts s).

(** One send carried through: when it posts, the fetch settles with
    [response.ok] before anything else runs. *)
Definition appendOk (clock : nat -> Z) (message : string) (s : State) : State :=
  match sendLogToBlockchain clock message s with
  | (Awaiting, s') => snd (step clock (FetchSettles ResponseOk) s')
  | (Returned _, s') => s'
  end.

Definition appends (clock : nat -> Z) (messages : list string) (s : State) : State :=
  fold_left (fun s' m => appendOk clock m s') messages s.

(** Sends started one after the other, each by [sendLogToBlockchain]
    alone; what they return is dropped, as [processLogQueue] does. *)
Definition attempts (clock : nat -> Z) (messages : list string) (s : State) : State :=
  fold_left (fun s' m => snd (sendLogToBlockchain clock m s')) messages s.


(** How many times a notice occurs in a list. *)
Definition isNotice (n m : Notice) : bool :=
  match n, m with
  | DailyLimitReached, DailyLimitReached => true
  | ServerReconnected, ServerReconnected => true
  | ServerNotAvailable, ServerNotAvailable => true
  | _, _ => false
  end.

Definition countNotice (n : Notice) (l : list Notice) : nat :=
  List.length (filter (isNotice n) l).

(** The queue invariant: within the bound, and empty once stopped. *)
Definition queueWithinBound (s : State) : Prop :=
  (List.length (logQueue s) <= MAX_QUEUE_SIZE)%nat /\
  (isStopped s = true -> logQueue s = []).

(** Two dispatch times at least one send interval apart, and the
    invariant of the rate gate: the dispatch times so far are spaced and
    none is later than [lastSentTime]. *)
Definition spaced (a b : Z) : Prop := a + SEND_INTERVAL_MS <= b.

Definition dispatchesSpaced (s : State) : Prop :=
  StronglySorted spaced (dispatchTimes s) /\
  Forall (fun t => t <= lastSentTime s) (dispatchTimes s).

(** *** Concrete clocks, chunks and traces *)

Definition newline : string := String "010"%char EmptyString.

(** A clock that advances one second, or one millisecond, per reading. *)
Definition everySecond (n : nat) : Z := 1000 * Z.of_nat n.
Definition everyMilli (n : nat) : Z := 1762431331000 + Z.of_nat n.

(** [n] numbered lines in one chunk. *)
Definition burst (n : nat) : string :=
  concat "" (map (fun i => "line " ++ JS.toString (Z.of_nat i) ++ newline) (seq 1 n)).

(** 999 lines, each dispatched and confirmed before the next arrives, then
    two lines dispatched before either fetch settles. *)
Definition overlappingSends : list Event :=
  (flat_map (fun _ => [Data ("line" ++ newline); FetchSettles ResponseOk]) (seq 0 999)
   ++ [Data ("a" ++ newline); Data ("b" ++ newline);
       FetchSettles ResponseOk; FetchSettles ResponseOk])%list.

(** The contract [c] while the read of index [i] is refused with [e]. *)
Definition failingAt (c : Contract) (i : Z) (e : JS.Error) : Contract :=
  {| logs := fun n j => if j =? i then JS.Rejected e else logs c n j;
     getLogs := getLogs c;
     estimateGas := estimateGas c;
     send := send c |}.

(** The contract [c] when call number [k] of the request alone is refused
    with [e], whatever it reads: a failure that has passed by the next
    call. *)
Definition refusingCall (c : Contract) (k : nat) (e : JS.Error) : Contract :=
  {| logs := fun n j => if (n =? k)%nat then JS.Rejected e else logs c n j;
     getLogs := getLogs c;
     estimateGas := estimateGas c;
     send := send c |}.

Definition connectionRefused : JS.Error :=
  JS.mkError (Some "ECONNREFUSED") "connect ECONNREFUSED 127.0.0.1:3000".

(** *** Vocabulary of the further properties *)

(** A ledger call that is a read of an index between [lo] and [hi]. *)
Definition readWithin (lo hi : Z) (call : LedgerCall) : Prop :=
  exists i, call = ReadLog i /\ lo <= i <= hi.

(** [l1] is [l2] with some elements left out, the order kept. *)
Inductive subseq {A : Type} : list A -> list A -> Prop :=
| subseq_nil : subseq [] []
| subseq_skip : forall x l1 l2, subseq l1 l2 -> subseq l1 (x :: l2)
| subseq_take : forall x l1 l2, subseq l1 l2 -> subseq (x :: l1) (x :: l2).

(** The lines handed to [sendLogToBlockchain], the lines echoed on arrival
    and the delays given to [setTimeout], oldest first. *)
Definition dispatched (s : State) : list string :=
  flat_map (fun e => match e with Dispatch _ m => [m] | _ => [] end) (rev (effects s)).

Definition echoed (s : State) : list string :=
  flat_map (fun e => match e with Console (EchoLine l) => [l] | _ => [] end)
    (rev (effects s)).

Definition timeouts (s : State) : list Z :=
  flat_map (fun e => match e with SetTimeout d => [d] | _ => [] end) (rev (effects s)).

(** The string holds a line feed. *)
Fixpoint hasNewline (s : string) : bool :=
  match s with
  | EmptyString => false
  | String ch s' => Ascii.eqb ch "010"%char || hasNewline s'
  end.

(** [lines.join('\n')] *)
Fixpoint joinLines (lines : list string) : string :=
  match lines with
  | [] => EmptyString
  | [l] => l
  | l :: rest => l ++ newline ++ joinLines rest
  end.

(** The entry [addLog] stores. *)
Definition stored (m from : string) (blockTime : Z) : LogEntry :=
  mkLogEntry m from blockTime.

(** Every line goes through the service at most once, in order: what was
    dispatched, then what is queued, is what was echoed with some lines
    left out; the posts are the trimmed dispatches with some left out; and
    a post is never blank nor untrimmed. *)
Definition linesOnce (s : State) : Prop :=
  subseq (dispatched s ++ logQueue s) (echoed s) /\
  subseq (posts s) (map JS.trim (dispatched s)) /\
  Forall (fun body => JS.truthyString body = true /\ JS.trim body = body) (posts s).

(** The outage and the reconnection notices written so far. *)
Definition outages (s : State) : nat := countNotice ServerNotAvailable (notices s).
Definition reconnections (s : State) : nat := countNotice ServerReconnected (notices s).

(* ================================================================= *)
(** * Part II.  Properties                                           *)
(* ================================================================= *)

(** ** The primitives on small inputs *)

Example trim_example : JS.trim ("  a b " ++ newline) = "a b".
Proof. reflexivity. Qed.

Example splitLines_example :
  JS.splitLines ("ab" ++ newline ++ newline ++ "cd") = ["ab"; ""; "cd"] /\
  JS.splitLines ("ab" ++ newline) = ["ab"; ""] /\
  JS.splitLines "" = [""].
Proof. repeat split; reflexivity. Qed.

Example includes_example :
  JS.includes "TypeError: fetch failed" "fetch failed" = true /\
  JS.includes "fetch faile" "fetch failed" = false.
Proof. split; reflexivity. Qed.

Example toString_example : JS.toString 1762431331 = "1762431331".
Proof. reflexivity. Qed.

Example isConnectionError_example :
  isConnectionError connectionRefused = true /\
  isConnectionError (JS.mkError None "fetch failed") = true /\
  isConnectionError (JS.mkError None "Unexpected token < in JSON") = false.
Proof. repeat split; reflexivity. Qed.

Example getLogsHandler_example :
  option_map fst (getLogsHandler (deployed (dense 2)))
  = Some (LogsJson 2 2 [mkFormattedLog 1 "log" "0xA" "1762431331";
                        mkFormattedLog 0 "log" "0xA" "1762431331"]).
Proof. vm_compute. reflexivity. Qed.

(** ** Retrieval: the loops return *)

Lemma findUpperBound_returns (c : Contract) (fuel : nat) :
  forall testIndex calls,
    testIndex < 500 * Z.of_nat fuel ->
    exists r, findUpperBound fuel c testIndex calls = Some r.
Proof.
  induction fuel as [|fuel IH]; intros testIndex calls Hfuel; simpl.
  - destruct (testIndex >=? 0) eqn:E; [lia | eauto].
  - destruct (testIndex >=? 0) eqn:E; [|eauto].
    destruct (logs c (List.length calls) testIndex) as [testLog|e].
    + destruct (JS.truthyString _); [eauto | apply IH; lia].
    + apply IH; lia.
Qed.

Lemma binarySearch_returns (c : Contract) (fuel : nat) :
  forall low high highestIndex calls,
    high - low + 1 <= Z.of_nat fuel ->
    exists r, binarySearch fuel c low high highestIndex calls = Some r.
Proof.
  induction fuel as [|fuel IH]; intros low high highestIndex calls Hfuel; simpl.
  - destruct (low <=? high) eqn:E; [lia | eauto].
  - destruct (low <=? high) eqn:E; [|eauto].
    apply Z.leb_le in E.
    assert (Hmid : low <= (low + high) / 2 <= high)
      by (split; [apply Z.div_le_lower_bound | apply Z.div_le_upper_bound]; lia).
    destruct (logs c (List.length calls) ((low + high) / 2)) as [testLog|e].
    + destruct (JS.truthyString _); apply IH; lia.
    + apply IH; lia.
Qed.

Lemma scanForward_returns (c : Contract) (fuel : nat) :
  forall i highestIndex calls,
    5000 - i <= Z.of_nat fuel ->
    exists r, scanForward fuel c i highestIndex calls = Some r.
Proof.
  induction fuel as [|fuel IH]; intros i highestIndex calls Hfuel; simpl.
  - destruct (i <? 5000) eqn:E; [lia | eauto].
  - destruct (i <? 5000) eqn:E; [|eauto].
    destruct (logs c (List.length calls) i) as [log|e]; [|eauto].
    destruct (JS.truthyString _); [apply IH; lia | eauto].
Qed.

Lemma locateHighestIndex_returns (c : Contract) :
  exists r, locateHighestIndex c = Some r.
Proof.
  unfold locateHighestIndex.
  destruct (findUpperBound_returns c 21 10000 []) as [[upperBound calls] ->]; [lia|].
  destruct (upperBound >=? 0).
  - apply binarySearch_returns; lia.
  - apply scanForward_returns; lia.
Qed.

Lemma fetchBackwards_returns (c : Contract) (fuel : nat) :
  forall i startIndex formattedLogs calls,
    0 <= startIndex ->
    i - startIndex + 1 <= Z.of_nat fuel ->
    exists r, fetchBackwards fuel c i startIndex formattedLogs calls = Some r.
Proof.
  induction fuel as [|fuel IH]; intros i startIndex formattedLogs calls Hstart Hfuel; simpl.
  - destruct ((i >=? startIndex) && (i >=? 0)) eqn:E; [lia | eauto].
  - destruct ((i >=? startIndex) && (i >=? 0)) eqn:E; [|eauto].
    destruct (logs c (List.length calls) i) as [log|e].
    + destruct (JS.truthyString _); apply IH; lia.
    + apply IH; lia.
Qed.

(** The reads of a reachable node holding one state are stable. *)
Lemma stable_deployed (st : storage) : stable (deployed st).
Proof. intros n i. reflexivity. Qed.

Lemma fetchBackwards_spec (c : Contract) (fuel : nat) :
  stable c ->
  forall i startIndex formattedLogs calls,
    0 <= startIndex ->
    i - startIndex + 1 <= Z.of_nat fuel ->
    exists calls',
      fetchBackwards fuel c i startIndex formattedLogs calls =
      Some ((formattedLogs ++
             flat_map (readAt c) (downFrom i (Z.to_nat (i - startIndex + 1))))%list,
            calls').
Proof.
  intros Hst.
  induction fuel as [|fuel IH]; intros i startIndex formattedLogs calls Hstart Hfuel.
  - simpl. destruct ((i >=? startIndex) && (i >=? 0)) eqn:E; [lia|].
    replace (Z.to_nat (i - startIndex + 1)) with O by lia.
    simpl. rewrite app_nil_r. eauto.
  - simpl. destruct ((i >=? startIndex) && (i >=? 0)) eqn:E.
    + replace (Z.to_nat (i - startIndex + 1))
        with (S (Z.to_nat (i - 1 - startIndex + 1))) by lia.
      simpl. unfold readAt at 1. rewrite (Hst (List.length calls)).
      destruct (logs c 0%nat i) as [log|e].
      * destruct (JS.truthyString _).
        -- destruct (IH (i - 1) startIndex (formattedLogs ++ [format i log])%list
                       (ReadLog i :: calls)) as [calls' ->]; [lia | lia |].
           rewrite <- app_assoc. simpl. eauto.
        -- simpl. apply IH; lia.
      * simpl. apply IH; lia.
    + replace (Z.to_nat (i - startIndex + 1)) with O by lia.
      simpl. rewrite app_nil_r. eauto.
Qed.

Lemma readAt_length (c : Contract) (i : Z) : (List.length (readAt c i) <= 1)%nat.
Proof.
  unfold readAt. destruct (logs c 0%nat i) as [log|e]; simpl; [|lia].
  destruct (JS.truthyString _); simpl; lia.
Qed.

Lemma downFrom_length (hi : Z) (n : nat) : List.length (downFrom hi n) = n.
Proof. revert hi; induction n; intros; simpl; auto. Qed.

Lemma kept_length (c : Contract) (l : list Z) :
  (List.length (flat_map (readAt c) l) <= List.length l)%nat.
Proof.
  induction l as [|i l IH]; simpl; [lia|].
  rewrite length_app. pose proof (readAt_length c i). lia.
Qed.

Lemma kept_indices (c : Contract) (l : list Z) :
  map index (flat_map (readAt c) l) = filter (populatedAt c) l.
Proof.
  induction l as [|i l IH]; simpl; [reflexivity|].
  rewrite map_app, IH. unfold readAt, populatedAt.
  destruct (logs c 0%nat i) as [log|e]; [|reflexivity].
  destruct (JS.truthyString _); reflexivity.
Qed.

(** The handler, for any contract, whatever its reads answer and however
    they change from call to call: it returns, with a success body. *)
Lemma getLogsHandler_answers (c : Contract) :
  exists count displayed found calls,
    getLogsHandler c = Some (LogsJson count displayed found, calls).
Proof.
  destruct (locateHighestIndex_returns c) as [[h calls0] Hloc].
  destruct (fetchBackwards_returns c 100 h (Z.max 0 (h - 99)) [] calls0)
    as [[found calls] Hfetch]; [lia | lia |].
  unfold getLogsHandler, fetchIndividually. rewrite Hloc, Hfetch.
  unfold respond. eauto.
Qed.

Lemma getLogsHandler_returns (c : Contract) : exists r, getLogsHandler c = Some r.
Proof.
  destruct (getLogsHandler_answers c) as (count & displayed & found & calls & H). eauto.
Qed.

(** The handler, for a stable contract: the count is the located index
    plus one, and the entries are those kept of the at most 100 indices
    below it. *)
Lemma getLogsHandler_spec (c : Contract) :
  stable c ->
  exists h calls0 calls,
    locateHighestIndex c = Some (h, calls0) /\
    let found := flat_map (readAt c) (downFrom h (Z.to_nat (Z.min (h + 1) 100))) in
    getLogsHandler c =
      Some (LogsJson (h + 1) (Z.of_nat (List.length found)) found, calls) /\
    (List.length found <= 100)%nat.
Proof.
  intros Hst.
  destruct (locateHighestIndex_returns c) as [[h calls0] Hloc].
  exists h, calls0.
  destruct (fetchBackwards_spec c 100 Hst h (Z.max 0 (h - 99)) [] calls0)
    as [calls Hfetch]; [lia | lia |].
  exists calls. split; [assumption|].
  assert (Hlen : (List.length
                    (flat_map (readAt c) (downFrom h (Z.to_nat (Z.min (h + 1) 100))))
                  <= 100)%nat).
  { etransitivity; [apply kept_length|]. rewrite downFrom_length. lia. }
  split; [|exact Hlen].
  unfold getLogsHandler, fetchIndividually. rewrite Hloc, Hfetch.
  replace (Z.to_nat (h - Z.max 0 (h - 99) + 1)) with (Z.to_nat (Z.min (h + 1) 100)) by lia.
  simpl app. unfold respond.
  rewrite firstn_all2 by exact Hlen. reflexivity.
Qed.

(** ** Retrieval: what the index discovery finds *)

Lemma findUpperBound_spec (c : Contract) (fuel : nat) :
  stable c ->
  forall testIndex calls,
    0 <= testIndex < 500 * Z.of_nat fuel ->
    exists upperBound calls',
      findUpperBound fuel c testIndex calls = Some (upperBound, calls') /\
      (List.length calls' <= List.length calls + fuel)%nat /\
      ((upperBound = -1 /\ populatedAt c (testIndex mod 500) = false) \/
       (populatedAt c upperBound = true /\ 0 <= upperBound <= testIndex /\
        (upperBound = testIndex \/ populatedAt c (upperBound + 500) = false))).
Proof.
  intros Hst.
  induction fuel as [|fuel IH]; intros testIndex calls Hfuel; [lia|].
  simpl. destruct (testIndex >=? 0) eqn:E; [|lia].
  assert (Hnext :
    populatedAt c testIndex = false ->
    exists upperBound calls',
      findUpperBound fuel c (testIndex - 500) (ReadLog testIndex :: calls)
        = Some (upperBound, calls') /\
      (List.length calls' <= List.length calls + S fuel)%nat /\
      ((upperBound = -1 /\ populatedAt c (testIndex mod 500) = false) \/
       (populatedAt c upperBound = true /\ 0 <= upperBound <= testIndex /\
        (upperBound = testIndex \/ populatedAt c (upperBound + 500) = false)))).
  { intros Hempty. destruct (Z_lt_ge_dec testIndex 500) as [Hsmall|Hbig].
    - exists (-1), (ReadLog testIndex :: calls). split; [|split].
      + destruct fuel; simpl; destruct (testIndex - 500 >=? 0) eqn:E'; (lia || reflexivity).
      + simpl. lia.
      + left. rewrite Z.mod_small by lia. auto.
    - destruct (IH (testIndex - 500) (ReadLog testIndex :: calls))
        as (ub & calls' & Hrun & Hlen & Hub); [lia|].
      exists ub, calls'. split; [exact Hrun|]. split; [simpl in Hlen; lia|].
      replace (testIndex mod 500) with ((testIndex - 500) mod 500)
        by (replace (testIndex - 500) with (testIndex + (-1) * 500) by lia;
            apply Z.mod_add; lia).
      destruct Hub as [Hnone|(Hpop & Hrange & Hstep)]; [left; exact Hnone|].
      right. split; [exact Hpop|]. split; [lia|].
      right. destruct Hstep as [->|Hstep]; [|exact Hstep].
      replace (testIndex - 500 + 500) with testIndex by lia. exact Hempty. }
  unfold populatedAt in Hnext at 1. rewrite (Hst (List.length calls)).
  destruct (logs c 0%nat testIndex) as [testLog|e] eqn:Hread.
  - destruct (JS.truthyString (SecureLog.message testLog)) eqn:Hmsg.
    + exists testIndex, (ReadLog testIndex :: calls). split; [reflexivity|].
      split; [simpl; lia|]. right. unfold populatedAt. rewrite Hread, Hmsg.
      repeat split; auto; lia.
    + apply Hnext; reflexivity.
  - apply Hnext; reflexivity.
Qed.

Lemma binarySearch_exact (c : Contract) (k : Z) (fuel : nat) :
  stable c ->
  forall low high highestIndex calls,
    (forall i, low <= i <= high -> (populatedAt c i = true <-> i <= k)) ->
    low <= k + 1 -> k <= high ->
    (low = k + 1 -> highestIndex = k) ->
    high - low + 1 <= Z.of_nat fuel ->
    exists calls', binarySearch fuel c low high highestIndex calls = Some (k, calls').
Proof.
  intros Hst.
  induction fuel as [|fuel IH]; intros low high highestIndex calls Hmono Hlow Hhigh Hbest Hfuel;
    simpl.
  - destruct (low <=? high) eqn:E; [lia|].
    rewrite Hbest by lia. eauto.
  - destruct (low <=? high) eqn:E; [|rewrite Hbest by lia; eauto].
    apply Z.leb_le in E.
    assert (Hmid : low <= (low + high) / 2 <= high)
      by (split; [apply Z.div_le_lower_bound | apply Z.div_le_upper_bound]; lia).
    set (mid := (low + high) / 2) in *.
    pose proof (Hmono mid Hmid) as Hiff. unfold populatedAt in Hiff.
    rewrite (Hst (List.length calls)).
    destruct (logs c 0%nat mid) as [testLog|e].
    + destruct (JS.truthyString (SecureLog.message testLog)).
      * assert (mid <= k) by (apply Hiff; reflexivity).
        apply IH; try lia. intros i Hi; apply Hmono; lia.
      * assert (~ mid <= k) by (intros Hle; apply Hiff in Hle; discriminate).
        apply IH; try lia. intros i Hi; apply Hmono; lia.
    + assert (~ mid <= k) by (intros Hle; apply Hiff in Hle; discriminate).
      apply IH; try lia. intros i Hi; apply Hmono; lia.
Qed.

(** A window of fewer than [2^n] indices costs at most [n] reads. *)
Lemma binarySearch_calls (c : Contract) (fuel : nat) :
  forall (n : nat) low high highestIndex calls r calls',
    binarySearch fuel c low high highestIndex calls = Some (r, calls') ->
    high - low + 1 < 2 ^ Z.of_nat n ->
    (List.length calls' <= List.length calls + n)%nat.
Proof.
  induction fuel as [|fuel IH]; intros n low high highestIndex calls r calls' Hrun Hsize;
    simpl in Hrun.
  - destruct (low <=? high); [discriminate|]. injection Hrun as _ <-. lia.
  - destruct (low <=? high) eqn:E; [|injection Hrun as _ <-; lia].
    apply Z.leb_le in E.
    destruct n as [|n]; [simpl in Hsize; lia|].
    rewrite Nat2Z.inj_succ, Z.pow_succ_r in Hsize by lia.
    assert (Hmid : 2 * ((low + high) / 2) <= low + high < 2 * ((low + high) / 2) + 2).
    { pose proof (Z.div_mod (low + high) 2 ltac:(lia)).
      pose proof (Z.mod_pos_bound (low + high) 2 ltac:(lia)). lia. }
    set (mid := (low + high) / 2) in *.
    assert (Hstep : forall lo hi best,
               hi - lo + 1 < 2 ^ Z.of_nat n ->
               binarySearch fuel c lo hi best (ReadLog mid :: calls) = Some (r, calls') ->
               (List.length calls' <= List.length calls + S n)%nat).
    { intros lo hi best Hsz Hr. apply (IH n) in Hr; [simpl in Hr; lia | exact Hsz]. }
    destruct (logs c (List.length calls) mid) as [testLog|e].
    + destruct (JS.truthyString _); eapply Hstep; try exact Hrun; lia.
    + eapply Hstep; try exact Hrun; lia.
Qed.

Lemma populatedAt_deployed (st : storage) (i : Z) :
  wellFilled st ->
  populatedAt (deployed st) i = (0 <=? i) && (i <? Z.of_nat (List.length st)).
Proof.
  intros Hfilled. unfold populatedAt, deployed, logsGetter; simpl.
  destruct ((0 <=? i) && (i <? Z.of_nat (List.length st))) eqn:E; [|reflexivity].
  destruct (nth_error st (Z.to_nat i)) as [log|] eqn:Hnth.
  - apply nth_error_In in Hnth.
    unfold wellFilled in Hfilled. rewrite Forall_forall in Hfilled. auto.
  - apply nth_error_None in Hnth. lia.
Qed.

Lemma wellFilled_dense (n : Z) : wellFilled (dense n).
Proof.
  unfold wellFilled, dense. apply Forall_forall. intros log Hin.
  apply repeat_spec in Hin. subst log. reflexivity.
Qed.

(** The discovery on a contract populated exactly at [0 .. k]. *)
Lemma locateHighestIndex_exact (c : Contract) (k : Z) :
  stable c ->
  0 <= k <= 11000 ->
  (forall i, 0 <= i -> (populatedAt c i = true <-> i <= k)) ->
  exists calls,
    locateHighestIndex c = Some (k, calls) /\ (List.length calls <= 31)%nat.
Proof.
  intros Hst Hk Hmono. unfold locateHighestIndex.
  destruct (findUpperBound_spec c 21 Hst 10000 []) as (ub & calls0 & -> & Hlen0 & Hub); [lia|].
  destruct Hub as [[_ Hzero]|(Hpop & Hrange & Hstep)].
  - change (10000 mod 500) with 0 in Hzero.
    assert (populatedAt c 0 = true) by (apply Hmono; lia). congruence.
  - assert (Hle : ub <= k) by (apply Hmono; [lia | exact Hpop]).
    assert (Hwin : k <= ub + 1000).
    { destruct Hstep as [->|Hnext]; [lia|].
      destruct (Z_le_gt_dec (ub + 500) k) as [Hin|Hout]; [|lia].
      apply Hmono in Hin; [congruence | lia]. }
    replace (ub >=? 0) with true by lia.
    destruct (binarySearch_exact c k 1001 Hst ub (ub + 1000) (-1) calls0)
      as [calls Hrun]; try lia.
    { intros i Hi. apply Hmono. lia. }
    exists calls. split; [exact Hrun|].
    apply (binarySearch_calls c 1001 10) in Hrun; [simpl in Hlen0; lia|].
    change (2 ^ Z.of_nat 10) with 1024. lia.
Qed.

Lemma dense_length (n : Z) : List.length (dense n) = Z.to_nat n.
Proof. apply repeat_length. Qed.

Lemma highestPopulated_deployed (st : storage) :
  wellFilled st -> st <> [] ->
  highestPopulated (deployed st) (Z.of_nat (List.length st) - 1).
Proof.
  intros Hfilled Hne. assert (0 < List.length st)%nat by (destruct st; simpl; [congruence|lia]).
  split.
  - rewrite populatedAt_deployed by assumption. lia.
  - intros i Hi. rewrite populatedAt_deployed by assumption. lia.
Qed.

Lemma downFrom_all_populated (st : storage) (n : nat) :
  wellFilled st ->
  forall hi, hi < Z.of_nat (List.length st) -> 0 <= hi - Z.of_nat n + 1 ->
    filter (populatedAt (deployed st)) (downFrom hi n) = downFrom hi n.
Proof.
  intros Hfilled. induction n as [|n IH]; intros hi Hhi Hlo; simpl; [reflexivity|].
  rewrite populatedAt_deployed by assumption.
  replace ((0 <=? hi) && (hi <? Z.of_nat (List.length st))) with true by lia.
  rewrite IH by lia. reflexivity.
Qed.

Lemma dense_11002_highest : highestPopulated (deployed (dense 11002)) 11001.
Proof.
  change 11001 with (Z.of_nat (Z.to_nat 11002) - 1).
  rewrite <- dense_length.
  apply highestPopulated_deployed; [apply wellFilled_dense | discriminate].
Qed.

(** ** Retrieval: the reads of any contract

    Nothing is assumed of the contract here: a read may be refused, and two
    reads of one index may differ. *)

Lemma readPopulated_more (c : Contract) (new calls : list LedgerCall) (i : Z) :
  readPopulated c calls i -> readPopulated c (new ++ calls) i.
Proof.
  intros (n & Hn & Hpop). exists n. split; [|exact Hpop].
  rewrite rev_app_distr. rewrite nth_error_app1; [exact Hn|].
  apply nth_error_Some. rewrite Hn. discriminate.
Qed.

Lemma readPopulated_here (c : Contract) (calls : list LedgerCall) (i : Z) :
  populated (logs c (List.length calls) i) = true ->
  readPopulated c (ReadLog i :: calls) i.
Proof.
  intros Hpop. exists (List.length calls). split; [|exact Hpop].
  cbn [rev]. rewrite nth_error_app2 by (rewrite length_rev; lia).
  rewrite length_rev, Nat.sub_diag. reflexivity.
Qed.

Lemma readWithin_wider (lo hi lo' hi' : Z) (calls : list LedgerCall) :
  lo' <= lo -> hi <= hi' ->
  Forall (readWithin lo hi) calls -> Forall (readWithin lo' hi') calls.
Proof.
  intros Hlo Hhi H. eapply Forall_impl; [|exact H].
  intros call (i & -> & Hi). exists i. split; [reflexivity | lia].
Qed.

Lemma findUpperBound_reads (c : Contract) (fuel : nat) :
  forall testIndex calls,
    0 <= testIndex < 500 * Z.of_nat fuel ->
    exists upperBound new,
      findUpperBound fuel c testIndex calls = Some (upperBound, (new ++ calls)%list) /\
      (List.length new <= fuel)%nat /\
      Forall (readWithin 0 testIndex) new /\
      (upperBound = -1 \/
       (0 <= upperBound <= testIndex /\ readPopulated c (new ++ calls) upperBound)).
Proof.
  induction fuel as [|fuel IH]; intros testIndex calls Hfuel; [lia|].
  simpl. destruct (testIndex >=? 0) eqn:E; [|lia].
  assert (Hread : readWithin 0 testIndex (ReadLog testIndex))
    by (exists testIndex; split; [reflexivity | lia]).
  assert (Hnext :
    exists upperBound new,
      findUpperBound fuel c (testIndex - 500) (ReadLog testIndex :: calls)
        = Some (upperBound, (new ++ calls)%list) /\
      (List.length new <= S fuel)%nat /\
      Forall (readWithin 0 testIndex) new /\
      (upperBound = -1 \/
       (0 <= upperBound <= testIndex /\ readPopulated c (new ++ calls) upperBound))).
  { destruct (Z_lt_ge_dec testIndex 500) as [Hsmall|Hbig].
    - exists (-1), [ReadLog testIndex]. split; [|split; [|split]].
      + destruct fuel; simpl; destruct (testIndex - 500 >=? 0) eqn:E'; (lia || reflexivity).
      + simpl. lia.
      + repeat constructor. exact Hread.
      + left. reflexivity.
    - destruct (IH (testIndex - 500) (ReadLog testIndex :: calls))
        as (ub & new & Hrun & Hlen & Hreads & Hub); [lia|].
      exists ub, (new ++ [ReadLog testIndex])%list.
      rewrite <- app_assoc. split; [exact Hrun|].
      split; [rewrite length_app; simpl; lia|].
      split.
      { apply Forall_app. split; [|repeat constructor; exact Hread].
        apply (readWithin_wider 0 (testIndex - 500)); [lia | lia | exact Hreads]. }
      destruct Hub as [->|[Hrange Hpop]]; [left; reflexivity|].
      right. split; [lia | exact Hpop]. }
  destruct (logs c (List.length calls) testIndex) as [testLog|e] eqn:Hsettled.
  - destruct (JS.truthyString (SecureLog.message testLog)) eqn:Hmsg.
    + exists testIndex, [ReadLog testIndex]. split; [reflexivity|].
      split; [simpl; lia|]. split; [repeat constructor; exact Hread|].
      right. split; [lia|]. apply readPopulated_here. rewrite Hsettled. exact Hmsg.
    + exact Hnext.
  - exact Hnext.
Qed.

Lemma binarySearch_reads (c : Contract) (fuel : nat) :
  forall low high highestIndex calls,
    high - low + 1 <= Z.of_nat fuel ->
    exists r new,
      binarySearch fuel c low high highestIndex calls = Some (r, (new ++ calls)%list) /\
      Forall (readWithin low high) new /\
      (r = highestIndex \/ (low <= r <= high /\ readPopulated c (new ++ calls) r)).
Proof.
  induction fuel as [|fuel IH]; intros low high highestIndex calls Hfuel; simpl.
  - destruct (low <=? high) eqn:E; [lia|]. exists highestIndex, []. auto.
  - destruct (low <=? high) eqn:E; [|exists highestIndex, []; auto].
    apply Z.leb_le in E.
    assert (Hmid : low <= (low + high) / 2 <= high)
      by (split; [apply Z.div_le_lower_bound | apply Z.div_le_upper_bound]; lia).
    set (mid := (low + high) / 2) in *.
    assert (Hstep : forall lo hi best,
               low <= lo -> hi <= high -> hi - lo + 1 <= Z.of_nat fuel ->
               (best = highestIndex \/
                (low <= best <= high /\ readPopulated c (ReadLog mid :: calls) best)) ->
               exists r new,
                 binarySearch fuel c lo hi best (ReadLog mid :: calls)
                   = Some (r, (new ++ calls)%list) /\
                 Forall (readWithin low high) new /\
                 (r = highestIndex \/
                  (low <= r <= high /\ readPopulated c (new ++ calls) r))).
    { intros lo hi best Hlo Hhi Hf Hbest.
      destruct (IH lo hi best (ReadLog mid :: calls) Hf) as (r & new & Hrun & Hreads & Hr).
      exists r, (new ++ [ReadLog mid])%list.
      rewrite <- app_assoc. split; [exact Hrun|]. split.
      - apply Forall_app. split.
        + apply (readWithin_wider lo hi); [lia | lia | exact Hreads].
        + repeat constructor. exists mid. split; [reflexivity | lia].
      - destruct Hr as [->|(Hrange & Hp)].
        + destruct Hbest as [->|[Hrange Hp]]; [left; reflexivity|].
          right. split; [exact Hrange|].
          apply (readPopulated_more c new (ReadLog mid :: calls)). exact Hp.
        + right. split; [lia | exact Hp]. }
    destruct (logs c (List.length calls) mid) as [testLog|e] eqn:Hsettled.
    + destruct (JS.truthyString (SecureLog.message testLog)) eqn:Hmsg.
      * apply Hstep; try lia. right. split; [lia|].
        apply readPopulated_here. rewrite Hsettled. exact Hmsg.
      * apply Hstep; try lia; left; reflexivity.
    + apply Hstep; try lia; left; reflexivity.
Qed.

Lemma scanForward_reads (c : Contract) (fuel : nat) :
  forall i highestIndex calls,
    0 <= i -> 5000 - i <= Z.of_nat fuel ->
    exists r new,
      scanForward fuel c i highestIndex calls = Some (r, (new ++ calls)%list) /\
      Z.of_nat (List.length new) <= Z.max 0 (5000 - i) /\
      Forall (readWithin i 4999) new /\
      (r = highestIndex \/ (i <= r <= 4999 /\ readPopulated c (new ++ calls) r)).
Proof.
  induction fuel as [|fuel IH]; intros i highestIndex calls Hi Hfuel; cbn [scanForward].
  - destruct (i <? 5000) eqn:E; [lia|]. exists highestIndex, []. cbn [app List.length].
    repeat split; auto; lia.
  - destruct (i <? 5000) eqn:E.
    2:{ exists highestIndex, []. cbn [app List.length]. repeat split; auto; lia. }
    apply Z.ltb_lt in E.
    assert (Hread : readWithin i 4999 (ReadLog i))
      by (exists i; split; [reflexivity | lia]).
    assert (Hstop : exists r new,
               Some (highestIndex, ReadLog i :: calls) = Some (r, (new ++ calls)%list) /\
               Z.of_nat (List.length new) <= Z.max 0 (5000 - i) /\
               Forall (readWithin i 4999) new /\
               (r = highestIndex \/ (i <= r <= 4999 /\ readPopulated c (new ++ calls) r))).
    { exists highestIndex, [ReadLog i]. split; [reflexivity|]. cbn [List.length].
      split; [lia|]. split; [repeat constructor; exact Hread | left; reflexivity]. }
    destruct (logs c (List.length calls) i) as [log|e] eqn:Hsettled; [|exact Hstop].
    destruct (JS.truthyString (SecureLog.message log)) eqn:Hmsg; [|exact Hstop].
    destruct (IH (i + 1) i (ReadLog i :: calls)) as (r & new & Hrun & Hlen & Hreads & Hr);
      [lia | lia |].
    exists r, (new ++ [ReadLog i])%list.
    rewrite <- app_assoc. split; [exact Hrun|].
    split; [rewrite length_app; cbn [List.length]; lia|].
    split.
    { apply Forall_app. split; [|repeat constructor; exact Hread].
      apply (readWithin_wider (i + 1) 4999); [lia | lia | exact Hreads]. }
    right. destruct Hr as [->|[Hrange Hp]].
    + split; [lia|]. apply (readPopulated_more c new (ReadLog i :: calls)).
      apply readPopulated_here. rewrite Hsettled. exact Hmsg.
    + split; [lia | exact Hp].
Qed.

Lemma fetchBackwards_reads (c : Contract) (fuel : nat) :
  forall i startIndex formattedLogs calls r calls',
    fetchBackwards fuel c i startIndex formattedLogs calls = Some (r, calls') ->
    0 <= startIndex ->
    exists new,
      calls' = (new ++ calls)%list /\ (List.length new <= fuel)%nat /\
      Forall (readWithin startIndex i) new.
Proof.
  induction fuel as [|fuel IH]; intros i startIndex formattedLogs calls r calls' Hrun Hstart;
    simpl in Hrun.
  - destruct ((i >=? startIndex) && (i >=? 0)); [discriminate|].
    injection Hrun as _ <-. exists []. simpl. auto.
  - destruct ((i >=? startIndex) && (i >=? 0)) eqn:E.
    2:{ injection Hrun as _ <-. exists []. simpl. split; [reflexivity|]. split; [lia|auto]. }
    assert (Hstep : forall acc,
               fetchBackwards fuel c (i - 1) startIndex acc (ReadLog i :: calls)
                 = Some (r, calls') ->
               exists new,
                 calls' = (new ++ calls)%list /\ (List.length new <= S fuel)%nat /\
                 Forall (readWithin startIndex i) new).
    { intros acc Hr. destruct (IH _ _ _ _ _ _ Hr Hstart) as (new & -> & Hlen & Hreads).
      exists (new ++ [ReadLog i])%list. split; [rewrite <- app_assoc; reflexivity|].
      split; [rewrite length_app; simpl; lia|].
      apply Forall_app. split.
      - apply (readWithin_wider startIndex (i - 1)); [lia | lia | exact Hreads].
      - repeat constructor. exists i. split; [reflexivity | lia]. }
    destruct (logs c (List.length calls) i) as [log|e];
      [destruct (JS.truthyString _)|]; eapply Hstep; exact Hrun.
Qed.

(** The discovery on any contract: at most 21 reads of the coarse probe,
    then at most 10 of the binary search or at most 5000 of the forward
    scan. *)
Lemma locateHighestIndex_reads (c : Contract) :
  exists h calls,
    locateHighestIndex c = Some (h, calls) /\
    Z.of_nat (List.length calls) <= 5021 /\
    Forall (readWithin 0 11000) calls /\
    -1 <= h <= 11000 /\
    (h <> -1 -> readPopulated c calls h).
Proof.
  unfold locateHighestIndex.
  destruct (findUpperBound_reads c 21 10000 [])
    as (ub & new & Hrun & Hlen & Hreads & Hub); [lia|].
  rewrite app_nil_r in Hrun, Hub. rewrite Hrun.
  assert (Hreads' : Forall (readWithin 0 11000) new)
    by (apply (readWithin_wider 0 10000); [lia | lia | exact Hreads]).
  destruct Hub as [->|[Hrange Hpop]].
  - replace (-1 >=? 0) with false by reflexivity.
    destruct (scanForward_reads c 5000 0 (-1) new) as (r & new' & Hscan & Hlen' & Hreads2 & Hr);
      [lia | lia |].
    exists r, (new' ++ new)%list. split; [exact Hscan|].
    split; [rewrite length_app; lia|]. split.
    { apply Forall_app. split; [|exact Hreads'].
      apply (readWithin_wider 0 4999); [lia | lia | exact Hreads2]. }
    destruct Hr as [->|[Hr Hp]]; [split; [lia | congruence]|].
    split; [lia | intros _; exact Hp].
  - replace (ub >=? 0) with true by lia.
    destruct (binarySearch_reads c 1001 ub (ub + 1000) (-1) new)
      as (r & new' & Hbin & Hreads2 & Hr); [lia|].
    exists r, (new' ++ new)%list. split; [exact Hbin|].
    assert (Hcount : (List.length (new' ++ new) <= List.length new + 10)%nat).
    { apply (binarySearch_calls c 1001 10) in Hbin; [exact Hbin|].
      change (2 ^ Z.of_nat 10) with 1024. lia. }
    split; [lia|]. split.
    { apply Forall_app. split; [|exact Hreads'].
      apply (readWithin_wider ub (ub + 1000)); [lia | lia | exact Hreads2]. }
    destruct Hr as [->|[Hr Hp]]; [split; [lia | congruence]|].
    split; [lia | intros _; exact Hp].
Qed.

(** The handler on any contract: a success body, after at most 100 reads
    more, and never the bulk call. *)
Lemma getLogsHandler_reads (c : Contract) :
  exists h calls0 count displayed found new,
    locateHighestIndex c = Some (h, calls0) /\
    getLogsHandler c = Some (LogsJson count displayed found, (new ++ calls0)%list) /\
    count = h + 1 /\
    (List.length new <= 100)%nat /\
    Forall (readWithin 0 11000) (new ++ calls0).
Proof.
  destruct (locateHighestIndex_reads c) as (h & calls0 & Hloc & _ & Hreads & Hh & _).
  destruct (fetchBackwards_returns c 100 h (Z.max 0 (h - 99)) [] calls0)
    as [[found calls] Hfetch]; [lia | lia |].
  destruct (fetchBackwards_reads c 100 _ _ _ _ _ _ Hfetch) as (new & -> & Hnew & Hwithin);
    [lia|].
  exists h, calls0. unfold getLogsHandler, fetchIndividually. rewrite Hloc, Hfetch.
  unfold respond. do 4 eexists. split; [reflexivity|]. split; [reflexivity|].
  split; [reflexivity|]. split; [exact Hnew|].
  apply Forall_app. split; [|exact Hreads].
  apply (readWithin_wider (Z.max 0 (h - 99)) h); [lia | lia | exact Hwithin].
Qed.

(** ** C1: index discovery *)

(** Inside the probe window the discovery is exact.  On the empty ledger
    it yields -1 (not found) after 22 reads and the handler reports count
    0 with no entries.  On a ledger whose entries occupy exactly the
    indices 0..k with k <= 11000 (the probe ceiling 10000 plus the
    refinement window 1000), it returns exactly k, the highest populated
    index, with at most 21 coarse reads plus floor(log2 1001) + 1 reads of
    the binary search: at most 31 reads whatever k is. *)
Lemma index_discovery_within_window :
  (exists calls,
      locateHighestIndex (deployed []) = Some (-1, calls) /\
      List.length calls = 22%nat /\
      getLogsHandler (deployed []) = Some (LogsJson 0 0 [], calls)) /\
  (forall st : storage,
      st <> [] -> wellFilled st -> Z.of_nat (List.length st) - 1 <= 11000 ->
      exists calls,
        locateHighestIndex (deployed st) = Some (Z.of_nat (List.length st) - 1, calls) /\
        highestPopulated (deployed st) (Z.of_nat (List.length st) - 1) /\
        Z.of_nat (List.length calls) <= 21 + (Z.log2 1001 + 1)).
Proof.
  split.
  - eexists. split; [vm_compute; reflexivity|]. split; reflexivity.
  - intros st Hne Hfilled Hsize.
    assert (0 < List.length st)%nat by (destruct st; simpl; [congruence|lia]).
    destruct (locateHighestIndex_exact (deployed st) (Z.of_nat (List.length st) - 1))
      as (calls & Hrun & Hcalls); [apply stable_deployed | lia | |].
    { intros i Hi. rewrite populatedAt_deployed by assumption. lia. }
    exists calls. split; [exact Hrun|].
    split; [apply highestPopulated_deployed; assumption|].
    change (Z.log2 1001) with 9. lia.
Qed.

(** The ledger of 3164 entries of the README. *)
Lemma index_discovery_witness :
  exists calls, locateHighestIndex (deployed (dense 3164)) = Some (3163, calls).
Proof.
  destruct (proj2 index_discovery_within_window (dense 3164)) as (calls & H & _).
  - discriminate.
  - apply wellFilled_dense.
  - rewrite dense_length. lia.
  - exists calls. rewrite dense_length in H. exact H.
Defined.

Lemma downFrom_le (hi : Z) (n : nat) (x : Z) : In x (downFrom hi n) -> x <= hi.
Proof.
  revert hi. induction n as [|n IH]; intros hi Hin; simpl in Hin; [contradiction|].
  destruct Hin as [<-|Hin]; [lia|]. apply IH in Hin. lia.
Qed.

(** C1 (what the code does).  The discovery does not find the highest
    populated index of a ledger that has outgrown the probe window: the
    coarse probe starts at the fixed ceiling 10000 and the binary search
    looks no further than 1000 indices above the coarse hit.  On the
    ledger whose entries occupy exactly the indices 0..11001 the highest
    populated index is 11001 and the discovery returns 11000; on every
    ledger of more than 11001 entries, all with a message, it returns an
    index below the highest populated one. *)
Theorem index_discovery_counterexample :
  wellFilled (dense 11002) /\
  highestPopulated (deployed (dense 11002)) 11001 /\
  ~ (exists calls, locateHighestIndex (deployed (dense 11002)) = Some (11001, calls)) /\
  option_map fst (locateHighestIndex (deployed (dense 11002))) = Some 11000 /\
  (forall st : storage,
      wellFilled st -> 11001 < Z.of_nat (List.length st) ->
      exists h calls,
        locateHighestIndex (deployed st) = Some (h, calls) /\
        highestPopulated (deployed st) (Z.of_nat (List.length st) - 1) /\
        h < Z.of_nat (List.length st) - 1).
Proof.
  assert (Hrun : option_map fst (locateHighestIndex (deployed (dense 11002))) = Some 11000)
    by (vm_compute; reflexivity).
  split; [apply wellFilled_dense|]. split; [apply dense_11002_highest|].
  split; [|split; [exact Hrun|]].
  - intros [calls H]. rewrite H in Hrun. discriminate.
  - intros st Hfilled Hsize.
    destruct (locateHighestIndex_reads (deployed st)) as (h & calls & Hloc & _ & _ & Hh & _).
    exists h, calls. split; [exact Hloc|].
    split; [|lia].
    apply highestPopulated_deployed; [exact Hfilled|].
    destruct st; [simpl in Hsize; lia | discriminate].
Qed.

(** ** C2: the latest 100 entries *)

(** What the handler returns for a contract with stable reads: with h the
    index found by the discovery, the count h + 1 and exactly the populated
    entries among the indices h, h-1, ..., max(0, h-99), in that order: at
    most 100, newest first, an empty or failing read is skipped and nothing
    is put in its place.  When the entries occupy exactly the indices 0..k
    with k <= 11000, h is the highest populated index k, the count is
    k + 1 and the indices returned are k, k-1, ..., max(0, k-99).  On the
    dense ledger of size 3164 these are the 100 indices 3163 down to
    3064. *)
Lemma retrieval_latest_100 :
  (forall c : Contract,
      stable c ->
      exists h calls0 found calls,
        locateHighestIndex c = Some (h, calls0) /\
        getLogsHandler c =
          Some (LogsJson (h + 1) (Z.of_nat (List.length found)) found, calls) /\
        found = flat_map (readAt c) (downFrom h (Z.to_nat (Z.min (h + 1) 100))) /\
        map index found
          = filter (populatedAt c) (downFrom h (Z.to_nat (Z.min (h + 1) 100))) /\
        (List.length found <= 100)%nat) /\
  (forall st : storage,
      wellFilled st -> Z.of_nat (List.length st) <= 11001 ->
      exists found calls,
        getLogsHandler (deployed st) =
          Some (LogsJson (Z.of_nat (List.length st))
                  (Z.min (Z.of_nat (List.length st)) 100) found, calls) /\
        map index found =
          downFrom (Z.of_nat (List.length st) - 1)
            (Z.to_nat (Z.min (Z.of_nat (List.length st)) 100))) /\
  (exists found calls,
      getLogsHandler (deployed (dense 3164)) = Some (LogsJson 3164 100 found, calls) /\
      map index found = downFrom 3163 100 /\
      last (map index found) 0 = 3064).
Proof.
  split; [|split].
  - intros c Hst.
    destruct (getLogsHandler_spec c Hst) as (h & calls0 & calls & Hloc & Hrun & Hlen).
    exists h, calls0, (flat_map (readAt c) (downFrom h (Z.to_nat (Z.min (h + 1) 100)))), calls.
    repeat split; try assumption. apply kept_indices.
  - intros st Hfilled Hsize. destruct st as [|log st'] eqn:Hst.
    + eexists. eexists. split; vm_compute; reflexivity.
    + rewrite <- Hst in *. assert (Hne : st <> []) by (rewrite Hst; discriminate).
      assert (0 < List.length st)%nat by (rewrite Hst; simpl; lia).
      set (k := Z.of_nat (List.length st) - 1).
      destruct (getLogsHandler_spec (deployed st) (stable_deployed st))
        as (h & calls0 & calls & Hloc & Hrun & Hlen).
      destruct (locateHighestIndex_exact (deployed st) k) as (calls1 & Hloc' & _).
      { apply stable_deployed. }
      { unfold k; lia. }
      { intros i Hi. rewrite populatedAt_deployed by assumption. unfold k. lia. }
      rewrite Hloc' in Hloc. injection Hloc as <- _.
      set (found := flat_map (readAt (deployed st)) (downFrom k (Z.to_nat (Z.min (k + 1) 100))))
        in *.
      assert (Hidx : map index found = downFrom k (Z.to_nat (Z.min (k + 1) 100))).
      { unfold found. rewrite kept_indices.
        apply downFrom_all_populated; [assumption | unfold k; lia | unfold k; lia]. }
      assert (Hcount : Z.of_nat (List.length found) = Z.min (k + 1) 100).
      { rewrite <- (length_map index found), Hidx, downFrom_length. unfold k. lia. }
      exists found, calls. rewrite Hcount in Hrun.
      replace (Z.of_nat (List.length st)) with (k + 1) by (unfold k; lia).
      split; [exact Hrun|]. replace (k + 1 - 1) with k by lia. exact Hidx.
  - eexists. eexists. split; [vm_compute; reflexivity|]. split; vm_compute; reflexivity.
Qed.

(** A ledger of five entries: all five, newest first. *)
Lemma retrieval_latest_100_witness :
  exists found calls,
    getLogsHandler (deployed (dense 5)) = Some (LogsJson 5 5 found, calls) /\
    map index found = [4; 3; 2; 1; 0].
Proof.
  destruct (proj1 (proj2 retrieval_latest_100) (dense 5)) as (found & calls & Hrun & Hidx).
  - apply wellFilled_dense.
  - rewrite dense_length. lia.
  - exists found, calls. split; [exact Hrun | exact Hidx].
Defined.

(** C2 (what the code does).  On a ledger that has outgrown the probe
    window the handler returns neither the latest entries nor the count:
    on the dense ledger of 11002 entries the highest populated index is
    11001, yet the handler reports count 11001 and the entries 11000 down
    to 10901; on every ledger of more than 11001 entries, all with a
    message, the count reported is at most 11001, below the number of
    entries, and the newest entry is not among those returned. *)
Theorem retrieval_counterexample :
  highestPopulated (deployed (dense 11002)) 11001 /\
  (exists found calls,
      getLogsHandler (deployed (dense 11002)) = Some (LogsJson 11001 100 found, calls) /\
      map index found = downFrom 11000 100) /\
  ~ (exists displayed found calls,
        getLogsHandler (deployed (dense 11002))
        = Some (LogsJson (11001 + 1) displayed found, calls)) /\
  (forall st : storage,
      wellFilled st -> 11001 < Z.of_nat (List.length st) ->
      exists count displayed found calls,
        getLogsHandler (deployed st) = Some (LogsJson count displayed found, calls) /\
        count < Z.of_nat (List.length st) /\
        ~ In (Z.of_nat (List.length st) - 1) (map index found)).
Proof.
  split; [apply dense_11002_highest|]. split; [|split].
  - eexists. eexists. split; [vm_compute; reflexivity | vm_compute; reflexivity].
  - intros (displayed & found & calls & H).
    assert (Hcount : option_map (fun r => reportedCount (fst r))
                       (getLogsHandler (deployed (dense 11002))) = Some (Some 11001))
      by (vm_compute; reflexivity).
    rewrite H in Hcount. simpl in Hcount. discriminate.
  - intros st Hfilled Hsize.
    destruct (getLogsHandler_spec (deployed st) (stable_deployed st))
      as (h & calls0 & calls & Hloc & Hrun & _).
    destruct (locateHighestIndex_reads (deployed st)) as (h' & calls' & Hloc' & _ & _ & Hh & _).
    rewrite Hloc' in Hloc. injection Hloc as -> ->.
    cbv zeta in Hrun. do 4 eexists. split; [exact Hrun|]. split; [lia|].
    rewrite kept_indices. intros Hin. apply filter_In in Hin. destruct Hin as [Hin _].
    apply downFrom_le in Hin. lia.
Qed.

(** ** C3: read failures during retrieval *)

(** C3 (what the code does).  No read failure is ever surfaced: for every
    contract, whatever its reads answer and however they change from call
    to call, the handler answers with a success body; when every read is
    refused, whatever the error, the answer is the one given for the empty
    ledger, count 0 and no entries; and when, on the ledger of 3164
    entries, only the read of index 3163 is refused, the binary search
    takes it for an absent index and the count drops to 3163.  The refusal
    used is one the handler's own catch clause would report as status
    503. *)
Theorem read_failures_never_surface :
  (forall c : Contract,
      exists count displayed found calls,
        getLogsHandler c = Some (LogsJson count displayed found, calls)) /\
  (forall error : JS.Error,
      option_map fst (getLogsHandler (unreachable error)) = Some (LogsJson 0 0 []) /\
      option_map fst (getLogsHandler (unreachable error))
        = option_map fst (getLogsHandler (deployed []))) /\
  (option_map (fun r => reportedCount (fst r))
     (getLogsHandler (deployed (dense 3164))) = Some (Some 3164) /\
   option_map (fun r => reportedCount (fst r))
     (getLogsHandler (failingAt (deployed (dense 3164)) 3163 connectionRefused))
   = Some (Some 3163)) /\
  (exists text,
      errorResponse "Failed to retrieve logs" connectionRefused
      = ErrorJson 503 "Failed to retrieve logs" text).
Proof.
  split; [|split; [|split]].
  - intros c. apply getLogsHandler_answers.
  - intros error. split; vm_compute; reflexivity.
  - split; vm_compute; reflexivity.
  - eexists. vm_compute. reflexivity.
Qed.

(** ** The streaming service: single steps *)

Ltac unfold_js :=
  cbv [sendLogToBlockchain sendLogToBlockchain_resume processLogQueue queueLogForSending
       forLine onSignal step bind ret get put when emit console setTimeout fetch Date_now].

Lemma trim_nonblank (m : string) :
  JS.truthyString (JS.trim m) = true -> JS.truthyString m = true.
Proof. destruct m; [discriminate | reflexivity]. Qed.

Lemma send_refused (clock : nat -> Z) (s : State) (message : string) :
  isStopped s = false ->
  clock (ticks s) < dailyResetTime s ->
  MAX_LOGS_PER_DAY <= dailyLogCount s ->
  sendLogToBlockchain clock message s =
    (Returned (Some false),
     set_effects (Console DailyLimitReached :: effects s) (set_ticks (S (ticks s)) s)).
Proof.
  intros Hrun Hwin Hfull. unfold_js. rewrite Hrun.
  replace (clock (ticks s) >=? dailyResetTime (set_ticks (S (ticks s)) s)) with false
    by (simpl; lia).
  replace (dailyLogCount (set_ticks (S (ticks s)) s) >=? MAX_LOGS_PER_DAY) with true
    by (simpl; lia).
  rewrite Z.rem_1_r. reflexivity.
Qed.

Lemma send_accepted (clock : nat -> Z) (s : State) (message : string) :
  isStopped s = false ->
  clock (ticks s) < dailyResetTime s ->
  dailyLogCount s < MAX_LOGS_PER_DAY ->
  JS.truthyString (JS.trim message) = true ->
  sendLogToBlockchain clock message s =
    (Awaiting,
     set_inFlight (S (inFlight s))
       (set_effects (Post (JS.trim message) :: effects s) (set_ticks (S (ticks s)) s))).
Proof.
  intros Hrun Hwin Hroom Htext. unfold_js. rewrite Hrun.
  replace (clock (ticks s) >=? dailyResetTime (set_ticks (S (ticks s)) s)) with false
    by (simpl; lia).
  replace (dailyLogCount (set_ticks (S (ticks s)) s) >=? MAX_LOGS_PER_DAY) with false
    by (simpl; lia).
  rewrite Htext, (trim_nonblank _ Htext). reflexivity.
Qed.

Lemma send_after_window (clock : nat -> Z) (s : State) (message : string) :
  isStopped s = false ->
  dailyResetTime s <= clock (ticks s) ->
  JS.truthyString (JS.trim message) = true ->
  sendLogToBlockchain clock message s =
    (Awaiting,
     set_inFlight (S (inFlight s))
       (set_effects (Post (JS.trim message) :: effects s)
          (set_dailyResetTime (clock (ticks s) + DAY_MS)
             (set_dailyLogCount 0 (set_ticks (S (ticks s)) s))))).
Proof.
  intros Hrun Hwin Htext. unfold_js. rewrite Hrun.
  replace (clock (ticks s) >=? dailyResetTime (set_ticks (S (ticks s)) s)) with true
    by (simpl; lia).
  cbn [dailyLogCount set_dailyResetTime set_dailyLogCount].
  replace (0 >=? MAX_LOGS_PER_DAY) with false by reflexivity.
  rewrite Htext, (trim_nonblank _ Htext). reflexivity.
Qed.

Lemma posts_emitted (s s' : State) (e : Effect) :
  effects s' = e :: effects s ->
  posts s' = (posts s ++ match e with Post m => [m] | _ => [] end)%list.
Proof.
  intros H. unfold posts. rewrite H. simpl. rewrite flat_map_app. simpl.
  rewrite app_nil_r. reflexivity.
Qed.

Lemma notices_emitted (s s' : State) (e : Effect) :
  effects s' = e :: effects s ->
  notices s' = (notices s ++ match e with Console n => [n] | _ => [] end)%list.
Proof.
  intros H. unfold notices. rewrite H. simpl. rewrite flat_map_app. simpl.
  rewrite app_nil_r. reflexivity.
Qed.

Lemma appendOk_accepted (clock : nat -> Z) (s : State) (message : string) :
  isStopped s = false ->
  clock (ticks s) < dailyResetTime s ->
  dailyLogCount s < MAX_LOGS_PER_DAY ->
  JS.truthyString (JS.trim message) = true ->
  let s' := appendOk clock message s in
  dailyLogCount s' = dailyLogCount s + 1 /\
  posts s' = (posts s ++ [JS.trim message])%list /\
  ticks s' = S (ticks s) /\
  dailyResetTime s' = dailyResetTime s /\
  isStopped s' = false /\
  inFlight s' = inFlight s.
Proof.
  intros Hrun Hwin Hroom Htext. unfold appendOk.
  rewrite send_accepted by assumption. unfold_js.
  cbn. destruct (serverAvailable s); cbn; repeat split; auto;
    unfold posts; cbn; rewrite ?flat_map_app; cbn; rewrite ?app_nil_r; reflexivity.
Qed.

Lemma appends_accepted (clock : nat -> Z) (messages : list string) :
  forall s : State,
    isStopped s = false ->
    Forall (fun m => JS.truthyString (JS.trim m) = true) messages ->
    (forall n, (ticks s <= n < ticks s + List.length messages)%nat ->
               clock n < dailyResetTime s) ->
    dailyLogCount s + Z.of_nat (List.length messages) <= MAX_LOGS_PER_DAY ->
    let s' := appends clock messages s in
    dailyLogCount s' = dailyLogCount s + Z.of_nat (List.length messages) /\
    posts s' = (posts s ++ map JS.trim messages)%list /\
    ticks s' = (ticks s + List.length messages)%nat /\
    dailyResetTime s' = dailyResetTime s /\
    isStopped s' = false.
Proof.
  induction messages as [|m rest IH]; intros s Hrun Htext Hwin Hroom.
  - simpl. rewrite app_nil_r. repeat split; auto; lia.
  - simpl in Hwin, Hroom |- *. inversion Htext as [|? ? Hm Hrest]; subst.
    destruct (appendOk_accepted clock s m) as (Hc & Hp & Ht & Hr & Hs & _);
      [assumption | apply Hwin; lia | lia | assumption |].
    destruct (IH (appendOk clock m s)) as (Hc' & Hp' & Ht' & Hr' & Hs');
      [assumption | assumption | | lia |].
    { intros n Hn. rewrite Hr. apply Hwin. lia. }
    unfold appends in *. rewrite Hc', Hp', Ht', Hr', Hc, Hp, Ht, Hr.
    rewrite <- app_assoc. simpl. repeat split; auto; lia.
Qed.

Lemma attempts_refused (clock : nat -> Z) (messages : list string) :
  forall s : State,
    isStopped s = false ->
    MAX_LOGS_PER_DAY <= dailyLogCount s ->
    (forall n, (ticks s <= n < ticks s + List.length messages)%nat ->
               clock n < dailyResetTime s) ->
    let s' := attempts clock messages s in
    posts s' = posts s /\
    inFlight s' = inFlight s /\
    dailyLogCount s' = dailyLogCount s /\
    notices s' = (notices s ++ repeat DailyLimitReached (List.length messages))%list.
Proof.
  induction messages as [|m rest IH]; intros s Hrun Hfull Hwin.
  - simpl. rewrite app_nil_r. auto.
  - simpl in Hwin |- *. unfold attempts in *. simpl.
    rewrite send_refused; [|assumption | apply Hwin; lia | assumption]. simpl.
    destruct (IH (set_effects (Console DailyLimitReached :: effects s)
                    (set_ticks (S (ticks s)) s))) as (Hp & Hi & Hc & Hn);
      [assumption | assumption | |].
    { intros n Hn. apply Hwin. simpl in Hn. lia. }
    rewrite Hp, Hi, Hc, Hn.
    rewrite (posts_emitted s _ (Console DailyLimitReached)) by reflexivity.
    rewrite (notices_emitted s _ (Console DailyLimitReached)) by reflexivity.
    rewrite app_nil_r, <- app_assoc. auto.
Qed.

(** ** C4: the daily quota gate *)

(** C4.  After exactly M = 1000 successful appends within the quota window
    (each one posted, none refused), every further dispatch attempt made
    while the window lasts is refused: nothing is posted, so no call, cost
    estimation included, reaches the ledger through the server, and the
    counter stays at M.  Once the window has elapsed the next dispatch
    resets the counter and the window, posts again, and its success is
    counted as the first of the new window. *)
Theorem quota_refuses_after_M_appends
    (clock : nat -> Z) (s0 : State) (messages more : list string)
    (message : string) (c : Contract) :
  isStopped s0 = false ->
  dailyLogCount s0 = 0 ->
  List.length messages = Z.to_nat MAX_LOGS_PER_DAY ->
  Forall (fun m => JS.truthyString (JS.trim m) = true) messages ->
  (forall n, (ticks s0 <= n < ticks s0 + List.length messages)%nat ->
             clock n < dailyResetTime s0) ->
  let s := appends clock messages s0 in
  dailyLogCount s = MAX_LOGS_PER_DAY /\
  posts s = (posts s0 ++ map JS.trim messages)%list /\
  ((forall n, (ticks s <= n < ticks s + List.length more)%nat ->
              clock n < dailyResetTime s) ->
   let s' := attempts clock more s in
   posts s' = posts s /\ backendCalls c s' = backendCalls c s /\
   inFlight s' = inFlight s /\ dailyLogCount s' = MAX_LOGS_PER_DAY) /\
  (dailyResetTime s <= clock (ticks s) ->
   JS.truthyString (JS.trim message) = true ->
   fst (sendLogToBlockchain clock message s) = Awaiting /\
   let s' := snd (sendLogToBlockchain clock message s) in
   posts s' = (posts s ++ [JS.trim message])%list /\
   dailyLogCount s' = 0 /\
   dailyResetTime s' = clock (ticks s) + DAY_MS /\
   dailyLogCount (appendOk clock message s) = 1).
Proof.
  intros Hrun Hzero Hlen Htext Hwin s.
  destruct (appends_accepted clock messages s0) as (Hc & Hp & Ht & Hr & Hs);
    [assumption | assumption | assumption | rewrite Hzero, Hlen; unfold MAX_LOGS_PER_DAY; lia |].
  fold s in Hc, Hp, Ht, Hr, Hs.
  assert (Hfull : dailyLogCount s = MAX_LOGS_PER_DAY)
    by (rewrite Hc, Hzero, Hlen; unfold MAX_LOGS_PER_DAY; lia).
  split; [exact Hfull|]. split; [exact Hp|]. split.
  - intros Hwin'.
    destruct (attempts_refused clock more s) as (Hp' & Hi' & Hc' & _);
      [assumption | lia | assumption |].
    cbv zeta. unfold backendCalls. rewrite Hp', Hi', Hc'. auto.
  - intros Hover Hmsg. unfold appendOk.
    rewrite send_after_window by assumption. split; [reflexivity|].
    cbv zeta. cbn [snd]. split; [|split; [|split]]; try reflexivity.
    + apply (posts_emitted _ _ (Post (JS.trim message))). reflexivity.
    + unfold_js. cbn. destruct (serverAvailable s); reflexivity.
Qed.

(** A thousand appends, one clock reading per second, then three refused
    attempts. *)
Lemma quota_refuses_after_M_appends_witness :
  let s := appends everySecond (repeat "line" 1000) (initial everySecond) in
  dailyLogCount s = 1000 /\
  posts (attempts everySecond ["a"; "b"; "c"] s) = posts s.
Proof.
  destruct (quota_refuses_after_M_appends everySecond (initial everySecond)
              (repeat "line" 1000) ["a"; "b"; "c"] "next" (deployed []))
    as (Hcount & _ & Hrefused & _).
  - reflexivity.
  - reflexivity.
  - vm_compute. reflexivity.
  - apply Forall_forall. intros m Hm. apply repeat_spec in Hm. subst m. reflexivity.
  - intros n Hn. rewrite repeat_length in Hn. unfold everySecond, initial, DAY_MS in *.
    cbn [ticks dailyResetTime] in *. lia.
  - split; [exact Hcount|]. refine (proj1 (Hrefused _)).
    intros n Hn.
    assert (Hticks : ticks (appends everySecond (repeat "line" 1000) (initial everySecond))
                     = 1001%nat) by (vm_compute; reflexivity).
    assert (Hreset : dailyResetTime (appends everySecond (repeat "line" 1000)
                                       (initial everySecond)) = 86400000)
      by (vm_compute; reflexivity).
    rewrite Hticks in Hn. rewrite Hreset. unfold everySecond.
    cbn [List.length] in Hn. lia.
Defined.

Lemma dispatchTimes_emitted (s s' : State) (e : Effect) :
  effects s' = e :: effects s ->
  dispatchTimes s' = (dispatchTimes s ++ match e with Dispatch t _ => [t] | _ => [] end)%list.
Proof.
  intros H. unfold dispatchTimes. rewrite H. simpl. rewrite flat_map_app. simpl.
  rewrite app_nil_r. reflexivity.
Qed.

Ltac js_case :=
  match goal with
  | |- context [if ?b then _ else _] => destruct b eqn:?
  end.

Ltac js_cases := repeat (cbn; try js_case); cbn.

Ltac trace_done :=
  unfold dispatchTimes, posts, notices;
  rewrite ?flat_map_app; cbn; rewrite ?app_nil_r; auto.

(** What [sendLogToBlockchain] leaves alone. *)
Lemma send_frame (clock : nat -> Z) (message : string) (s : State) :
  let s' := snd (sendLogToBlockchain clock message s) in
  logQueue s' = logQueue s /\ isStopped s' = isStopped s /\
  lastSentTime s' = lastSentTime s /\ dispatchTimes s' = dispatchTimes s.
Proof.
  unfold_js. js_cases; repeat split; trace_done.
Qed.

Lemma resume_frame (clock : nat -> Z) (outcome : FetchOutcome) (s : State) :
  let s' := snd (sendLogToBlockchain_resume clock outcome s) in
  logQueue s' = logQueue s /\ isStopped s' = isStopped s /\
  lastSentTime s' = lastSentTime s /\ dispatchTimes s' = dispatchTimes s.
Proof.
  destruct outcome; unfold_js; js_cases; repeat split; trace_done.
Qed.

#[local] Arguments sendLogToBlockchain : simpl never.

Lemma processLogQueue_unfold (clock : nat -> Z) (s : State) :
  processLogQueue clock s =
    let s1 := set_ticks (S (ticks s)) s in
    if clock (ticks s) - lastSentTime s <? SEND_INTERVAL_MS then
      setTimeout (SEND_INTERVAL_MS - (clock (ticks s) - lastSentTime s)) s1
    else
      match logQueue s with
      | [] => (tt, s1)
      | message :: rest =>
          let stamp := clock (S (ticks s)) in
          let s2 := set_effects (Dispatch stamp message :: effects s)
                      (set_lastSentTime stamp
                         (set_ticks (S (S (ticks s))) (set_logQueue rest s1))) in
          let s3 := snd (sendLogToBlockchain clock message s2) in
          when (0 <? List.length (logQueue s3))%nat (setTimeout SEND_INTERVAL_MS) s3
      end.
Proof.
  destruct s as [b a le ls q st c r t i tm ef].
  unfold processLogQueue.
  cbv [bind ret get put emit Date_now]. cbn.
  destruct (clock t - ls <? SEND_INTERVAL_MS); [reflexivity|].
  destruct q as [|message rest]; [reflexivity|].
  cbn. destruct (sendLogToBlockchain clock message _) as [r0 s3]. reflexivity.
Qed.

(** [processLogQueue] either leaves the queue and the stamp alone, or takes
    the head of the queue, with the gate open, and stamps the dispatch. *)
Lemma processLogQueue_spec (clock : nat -> Z) (s : State) :
  let s' := snd (processLogQueue clock s) in
  isStopped s' = isStopped s /\
  ((logQueue s' = logQueue s /\ lastSentTime s' = lastSentTime s /\
    dispatchTimes s' = dispatchTimes s) \/
   (exists message rest,
       logQueue s = message :: rest /\ logQueue s' = rest /\
       lastSentTime s + SEND_INTERVAL_MS <= clock (ticks s) /\
       lastSentTime s' = clock (S (ticks s)) /\
       dispatchTimes s' = (dispatchTimes s ++ [clock (S (ticks s))])%list)).
Proof.
  rewrite processLogQueue_unfold. cbv zeta.
  destruct (clock (ticks s) - lastSentTime s <? SEND_INTERVAL_MS) eqn:Hgate.
  - cbv [setTimeout bind get put emit]. cbn.
    split; [reflexivity|]. left. repeat split; trace_done.
  - destruct (logQueue s) as [|message rest] eqn:Hq.
    + cbn. split; [reflexivity|]. left. rewrite Hq. repeat split; trace_done.
    + match goal with
      | |- context [sendLogToBlockchain clock message ?st] =>
          pose proof (send_frame clock message st) as Hsend;
          destruct (sendLogToBlockchain clock message st) as [r s3]
      end.
      cbn [snd] in Hsend |- *. destruct Hsend as (Hq3 & Hs3 & Ht3 & Hd3).
      cbn in Hq3, Hs3, Ht3.
      match type of Hd3 with
      | _ = dispatchTimes ?s2 =>
          rewrite (dispatchTimes_emitted s s2 (Dispatch (clock (S (ticks s))) message)) in Hd3
            by reflexivity
      end.
      assert (Hstate : forall s4 : State,
                 logQueue s4 = logQueue s3 -> isStopped s4 = isStopped s3 ->
                 lastSentTime s4 = lastSentTime s3 -> dispatchTimes s4 = dispatchTimes s3 ->
                 isStopped s4 = isStopped s /\
                 ((logQueue s4 = message :: rest /\ lastSentTime s4 = lastSentTime s /\
                   dispatchTimes s4 = dispatchTimes s) \/
                  (exists message0 rest0,
                      message :: rest = message0 :: rest0 /\ logQueue s4 = rest0 /\
                      lastSentTime s + SEND_INTERVAL_MS <= clock (ticks s) /\
                      lastSentTime s4 = clock (S (ticks s)) /\
                      dispatchTimes s4 = (dispatchTimes s ++ [clock (S (ticks s))])%list))).
      { intros s4 H1 H2 H3 H4. rewrite H2, Hs3. split; [reflexivity|].
        right. exists message, rest.
        rewrite H1, Hq3, H3, Ht3, H4, Hd3.
        repeat split; try reflexivity. lia. }
      destruct (0 <? List.length (logQueue s3))%nat; cbv [when]; apply Hstate;
        cbv [setTimeout bind get put emit ret]; cbn; trace_done.
Qed.

Lemma queueLogForSending_unfold (clock : nat -> Z) (message : string) (s : State) :
  queueLogForSending clock message s =
    if isStopped s then (tt, s)
    else processLogQueue clock (set_logQueue (enqueue message (logQueue s)) s).
Proof.
  unfold queueLogForSending. cbv [bind get put ret].
  destruct (isStopped s); reflexivity.
Qed.

(** ** Properties kept by every event *)
Section Preservation.
Variable clock : nat -> Z.
Variable P : State -> Prop.

Hypothesis kept_by_process : forall s, P s -> P (snd (processLogQueue clock s)).
Hypothesis kept_by_enqueue :
  forall s message, P s -> isStopped s = false ->
                    P (set_logQueue (enqueue message (logQueue s)) s).
Hypothesis kept_by_resume :
  forall s outcome, P s -> P (snd (sendLogToBlockchain_resume clock outcome s)).
Hypothesis kept_by_signal : forall s, P s -> P (set_logQueue [] (set_isStopped true s)).
Hypothesis kept_by_buffer : forall s v, P s -> P (set_logBuffer v s).
Hypothesis kept_by_timers : forall s n, P s -> P (set_timers n s).
Hypothesis kept_by_inFlight : forall s n, P s -> P (set_inFlight n s).
Hypothesis kept_by_echo :
  forall s line, P s -> P (set_effects (Console (EchoLine line) :: effects s) s).

Lemma queueLogForSending_keeps (message : string) (s : State) :
  P s -> P (snd (queueLogForSending clock message s)).
Proof.
  intros H. rewrite queueLogForSending_unfold.
  destruct (isStopped s) eqn:Hs; [exact H|].
  apply kept_by_process, kept_by_enqueue; assumption.
Qed.

Lemma forEach_keeps (lines : list string) :
  forall s, P s -> P (snd (forEach clock lines s)).
Proof.
  induction lines as [|line rest IH]; intros s H; [exact H|].
  cbn [forEach]. unfold bind at 1.
  destruct (forLine clock line s) as [u s1] eqn:Hline.
  apply IH. replace s1 with (snd (forLine clock line s)) by (rewrite Hline; reflexivity).
  unfold forLine, when. destruct (JS.truthyString (JS.trim line)); [|exact H].
  unfold bind at 1, console, emit.
  apply queueLogForSending_keeps, kept_by_echo, H.
Qed.

Lemma step_keeps (e : Event) (s : State) : P s -> P (snd (step clock e s)).
Proof.
  intros H. destruct e as [chunk| |outcome|]; cbn [step].
  - unfold onData. cbv [bind get put]. apply forEach_keeps, kept_by_buffer, H.
  - cbv [bind get]. destruct (timers s) as [|n] eqn:Ht; [exact H|].
    cbv [put]. apply kept_by_process, kept_by_timers, H.
  - cbv [bind get]. destruct (inFlight s) as [|n] eqn:Hn; [exact H|].
    cbv [put ret].
    destruct (sendLogToBlockchain_resume clock outcome (set_inFlight n s)) as [b s1] eqn:Hr.
    cbn [snd].
    replace s1 with (snd (sendLogToBlockchain_resume clock outcome (set_inFlight n s)))
      by (rewrite Hr; reflexivity).
    apply kept_by_resume, kept_by_inFlight, H.
  - unfold onSignal. cbv [bind put]. cbn [snd]. apply kept_by_signal, H.
Qed.

Lemma run_keeps (events : list Event) : forall s, P s -> P (run clock events s).
Proof.
  induction events as [|e rest IH]; intros s H; [exact H|].
  cbn [run]. apply IH, step_keeps, H.
Qed.

End Preservation.

(** ** C5: the bounded queue *)

Lemma enqueue_length (message : string) (queue : list string) :
  (List.length queue <= MAX_QUEUE_SIZE)%nat ->
  (List.length (enqueue message queue) <= MAX_QUEUE_SIZE)%nat.
Proof.
  intros H. unfold enqueue, MAX_QUEUE_SIZE in *. rewrite length_app. cbn [List.length].
  destruct (50 <=? List.length queue)%nat eqn:E.
  - destruct queue; cbn [tl List.length] in *; lia.
  - apply Nat.leb_gt in E. lia.
Qed.

Lemma queueWithinBound_reachable (clock : nat -> Z) (events : list Event) :
  queueWithinBound (run clock events (initial clock)).
Proof.
  apply run_keeps; unfold queueWithinBound.
  - intros s [Hlen Hstop]. destruct (processLogQueue_spec clock s) as (Hs & Hq).
    cbv zeta in Hs, Hq. rewrite Hs.
    destruct Hq as [(-> & _)|(m & rest & Hq & -> & _)]; [auto|].
    split.
    + rewrite Hq in Hlen. cbn [List.length] in Hlen. lia.
    + intros H. apply Hstop in H. congruence.
  - intros s message [Hlen _] Hrun. cbn. split; [apply enqueue_length, Hlen | congruence].
  - intros s outcome H. destruct (resume_frame clock outcome s) as (-> & -> & _). exact H.
  - intros s _. cbn. split; [unfold MAX_QUEUE_SIZE; lia | reflexivity].
  - intros s v H. exact H.
  - intros s n H. exact H.
  - intros s n H. exact H.
  - intros s line H. exact H.
  - cbn. split; [unfold MAX_QUEUE_SIZE; lia | discriminate].
Qed.

(** C5.  In every state the service can reach, the queue holds at most
    Q = 50 lines, and so it does between the statements of an enqueue and
    after it.  When a line arrives while the queue is full, the oldest
    queued line is the one removed and the new line is placed last: it
    stays in the queue (behind every older line still waiting), whether or
    not the next waiting line is dispatched in the same call.  A queue that
    is not full loses nothing. *)
Theorem queue_bounded_drop_oldest (clock : nat -> Z) (events : list Event) (line : string) :
  let s := run clock events (initial clock) in
  let s' := snd (queueLogForSending clock line s) in
  (List.length (logQueue s) <= MAX_QUEUE_SIZE)%nat /\
  (List.length (enqueue line (logQueue s)) <= MAX_QUEUE_SIZE)%nat /\
  (List.length (logQueue s') <= MAX_QUEUE_SIZE)%nat /\
  (List.length (logQueue s) = MAX_QUEUE_SIZE ->
     exists oldest waiting,
       logQueue s = oldest :: waiting /\
       enqueue line (logQueue s) = (waiting ++ [line])%list /\
       (logQueue s' = (waiting ++ [line])%list \/
        logQueue s' = (tl waiting ++ [line])%list)) /\
  ((List.length (logQueue s) < MAX_QUEUE_SIZE)%nat ->
     enqueue line (logQueue s) = (logQueue s ++ [line])%list).
Proof.
  intros s s'.
  pose proof (queueWithinBound_reachable clock events) as [Hlen Hstop]. fold s in Hlen, Hstop.
  split; [exact Hlen|]. split; [apply enqueue_length, Hlen|].
  assert (Hafter : isStopped s = false ->
                   logQueue s' = enqueue line (logQueue s) \/
                   logQueue s' = tl (enqueue line (logQueue s))).
  { intros Hrun. unfold s'. rewrite queueLogForSending_unfold, Hrun.
    destruct (processLogQueue_spec clock (set_logQueue (enqueue line (logQueue s)) s))
      as (_ & Hq). cbv zeta in Hq. cbn [logQueue set_logQueue] in Hq.
    destruct Hq as [(-> & _)|(m & rest & Hq & -> & _)]; [left; reflexivity|].
    right. rewrite Hq. reflexivity. }
  split; [|split].
  - destruct (isStopped s) eqn:Hrun.
    + unfold s'. rewrite queueLogForSending_unfold, Hrun. exact Hlen.
    + pose proof (enqueue_length line _ Hlen) as Henq.
      destruct (Hafter eq_refl) as [-> | ->]; [exact Henq|].
      destruct (enqueue line (logQueue s)); cbn [tl List.length] in *; lia.
  - intros Hfull.
    destruct (logQueue s) as [|oldest waiting] eqn:Hq; [discriminate Hfull|].
    assert (Hrun : isStopped s = false).
    { destruct (isStopped s); [|reflexivity]. specialize (Hstop eq_refl). discriminate. }
    assert (Henq : enqueue line (oldest :: waiting) = (waiting ++ [line])%list).
    { unfold enqueue. rewrite Hfull, Nat.leb_refl. reflexivity. }
    exists oldest, waiting. split; [reflexivity|]. split; [exact Henq|].
    destruct (Hafter Hrun) as [H|H]; rewrite H, Henq; [left; reflexivity|].
    right. destruct waiting as [|next waiting']; [discriminate Hfull | reflexivity].
  - intros Hroom. unfold enqueue.
    replace (MAX_QUEUE_SIZE <=? List.length (logQueue s))%nat with false; [reflexivity|].
    symmetry. apply Nat.leb_gt. exact Hroom.
Qed.

(** Sixty numbered lines in one burst: line 1 is dispatched at once, lines
    2 to 10 are dropped, and the full queue holds lines 11 to 60. *)
Lemma queue_bounded_drop_oldest_witness :
  let s := run everyMilli [Data (burst 60)] (initial everyMilli) in
  List.length (logQueue s) = MAX_QUEUE_SIZE /\
  hd "" (logQueue s) = "line 11" /\
  exists oldest waiting,
    logQueue s = oldest :: waiting /\
    enqueue "line 61" (logQueue s) = (waiting ++ ["line 61"])%list.
Proof.
  split; [vm_compute; reflexivity|]. split; [vm_compute; reflexivity|].
  destruct (queue_bounded_drop_oldest everyMilli [Data (burst 60)] "line 61")
    as (_ & _ & _ & Hfull & _).
  destruct Hfull as (oldest & waiting & Hq & Henq & _); [vm_compute; reflexivity|].
  exists oldest, waiting. split; [exact Hq | exact Henq].
Defined.

(** ** C6: the rate gate *)

Lemma StronglySorted_snoc {A : Type} (R : A -> A -> Prop) (l : list A) (y : A) :
  StronglySorted R l -> Forall (fun x => R x y) l -> StronglySorted R (l ++ [y]).
Proof.
  induction 1 as [|x l Hsorted IH Hx]; intros Hall; simpl.
  - repeat constructor.
  - inversion Hall as [|? ? Hxy Hrest]; subst. constructor.
    + apply IH, Hrest.
    + apply Forall_app. split; [exact Hx | repeat constructor; exact Hxy].
Qed.

Lemma dispatchesSpaced_reachable (clock : nat -> Z) (events : list Event) :
  (forall n, clock n <= clock (S n)) ->
  dispatchesSpaced (run clock events (initial clock)).
Proof.
  intros Hmono. apply run_keeps; unfold dispatchesSpaced.
  - intros s [Hsorted Hlast]. destruct (processLogQueue_spec clock s) as (_ & Hq).
    cbv zeta in Hq.
    destruct Hq as [(_ & -> & ->)|(m & rest & _ & _ & Hgate & -> & ->)]; [auto|].
    pose proof (Hmono (ticks s)) as Hclock. unfold spaced, SEND_INTERVAL_MS in *. split.
    + apply StronglySorted_snoc; [exact Hsorted|].
      eapply Forall_impl; [|exact Hlast]. intros t Ht. cbv beta in Ht. lia.
    + apply Forall_app. split; [|repeat constructor; lia].
      eapply Forall_impl; [|exact Hlast]. intros t Ht. cbv beta in Ht. lia.
  - intros s message H _. exact H.
  - intros s outcome H. destruct (resume_frame clock outcome s) as (_ & _ & -> & ->). exact H.
  - intros s H. exact H.
  - intros s v H. exact H.
  - intros s n H. exact H.
  - intros s n H. exact H.
  - intros s line H.
    rewrite (dispatchTimes_emitted s _ (Console (EchoLine line))) by reflexivity.
    rewrite app_nil_r. exact H.
  - split; constructor.
Qed.

(** C6.  Whatever arrives and whenever the timers fire, with a clock that
    does not run backwards, the dispatches are at least T = 1000 ms apart:
    in the sequence of dispatch times every earlier one plus T is at most
    every later one, so no interval of length T holds two dispatches and no
    two dispatches pass the gate for one slot. *)
Theorem one_dispatch_per_interval (clock : nat -> Z) (events : list Event) :
  (forall n, clock n <= clock (S n)) ->
  StronglySorted (fun earlier later => earlier + SEND_INTERVAL_MS <= later)
    (dispatchTimes (run clock events (initial clock))).
Proof.
  intros Hmono. apply (dispatchesSpaced_reachable clock events Hmono).
Qed.

(** Three lines and three timers under a clock of one second per reading. *)
Lemma one_dispatch_per_interval_witness :
  StronglySorted (fun earlier later => earlier + SEND_INTERVAL_MS <= later)
    (dispatchTimes
       (run everySecond [Data (burst 3); TimerFires; TimerFires; TimerFires]
          (initial everySecond))) /\
  dispatchTimes
    (run everySecond [Data (burst 3); TimerFires; TimerFires; TimerFires]
       (initial everySecond)) = [2000; 5000; 8000].
Proof.
  split; [|vm_compute; reflexivity].
  apply (one_dispatch_per_interval everySecond).
  intros n. unfold everySecond. lia.
Defined.

(** ** C7: availability notices *)







(** ** C8: the quota counter *)

(** Sends that are each carried through before the next one starts keep
    the counter within the quota. *)
Lemma appendOk_within_quota (clock : nat -> Z) (message : string) (s : State) :
  dailyLogCount s <= MAX_LOGS_PER_DAY ->
  dailyLogCount (appendOk clock message s) <= MAX_LOGS_PER_DAY.
Proof.
  intros Hle. unfold appendOk. unfold_js. unfold MAX_LOGS_PER_DAY in *.
  js_cases; lia.
Qed.

Lemma appends_within_quota (clock : nat -> Z) (messages : list string) :
  forall s : State,
    dailyLogCount s <= MAX_LOGS_PER_DAY ->
    dailyLogCount (appends clock messages s) <= MAX_LOGS_PER_DAY.
Proof.
  induction messages as [|m rest IH]; intros s Hle; [exact Hle|].
  apply IH, appendOk_within_quota, Hle.
Qed.

(** C8 (what the code does).  The counter is tested when a send starts and
    incremented when its fetch settles.  After 999 appends carried through
    one by one, two sends start before either has settled, both pass the
    test at count 999, and both are counted: the counter reaches 1001
    within one window, above M = 1000, and 1001 appends were posted. *)
Theorem quota_overrun_by_overlapping_sends :
  let s := run everySecond overlappingSends (initial everySecond) in
  dailyLogCount s = 1001 /\
  MAX_LOGS_PER_DAY < dailyLogCount s /\
  List.length (posts s) = 1001%nat /\
  dailyResetTime s = dailyResetTime (initial everySecond) /\
  everySecond (ticks s) < dailyResetTime s.
Proof.
  vm_compute. repeat split; reflexivity.
Qed.

(** ** C9: the refusal notice *)

(** C9 (what the code does).  [hoursSinceReset % 1 === 0] holds for every
    integer, so each refused dispatch writes the notice: after the quota of
    1000 is used up, three refused dispatches one second apart write three
    notices and post nothing. *)
Theorem quota_refusal_logged_for_every_item :
  let s := appends everySecond (repeat "line" 1000) (initial everySecond) in
  let s' := attempts everySecond ["a"; "b"; "c"] s in
  dailyLogCount s = MAX_LOGS_PER_DAY /\
  posts s' = posts s /\
  notices s' = (notices s ++ [DailyLimitReached; DailyLimitReached; DailyLimitReached])%list /\
  countNotice DailyLimitReached (notices s') = (countNotice DailyLimitReached (notices s) + 3)%nat.
Proof.
  vm_compute. repeat split; reflexivity.
Qed.

(** ** C10: white-space messages *)

Lemma trimStart_whitespaceOnly (w : string) :
  whitespaceOnly w = true -> JS.trimStart w = "".
Proof.
  induction w as [|ch w IH]; [reflexivity|]. cbn. intros H.
  apply andb_true_iff in H. destruct H as [Hc Hw]. rewrite Hc. apply IH, Hw.
Qed.

Lemma trim_whitespaceOnly (w : string) : whitespaceOnly w = true -> JS.trim w = "".
Proof. intros H. unfold JS.trim. rewrite trimStart_whitespaceOnly by exact H. reflexivity. Qed.

Lemma errorResponse_not_invalid (error : JS.Error) :
  errorResponse "Failed to add log" error <> invalidRequest.
Proof.
  unfold errorResponse, invalidRequest.
  destruct (_ || _); discriminate.
Qed.

Lemma addLogHandler_string (c : Contract) (m : string) :
  m <> "" ->
  addLogHandler c (JS.Str m) =
    match estimateGas c m with
    | JS.Rejected error => (errorResponse "Failed to add log" error, [EstimateGas m])
    | JS.Fulfilled gasEstimate =>
        let finalGas :=
          if gasEstimate + 100000 >? 200000 then gasEstimate + 100000 else 200000 in
        match send c m finalGas with
        | JS.Rejected error =>
            (errorResponse "Failed to add log" error, [SendAddLog m finalGas; EstimateGas m])
        | JS.Fulfilled receipt =>
            (AddedJson (transactionHash receipt) (JS.toString (blockNumber receipt)),
             [SendAddLog m finalGas; EstimateGas m])
        end
    end.
Proof.
  intros Hne. destruct m as [|ch m']; [congruence|].
  unfold addLogHandler. cbn [JS.truthy JS.truthyString JS.typeof].
  rewrite String.eqb_refl. reflexivity.
Qed.

(** C10.  A manual submission whose message is a non-empty string of white
    space only passes the validation of POST /add-log: the answer is not the
    400 rejection, gas is estimated for the message as it was sent, and,
    when the estimate succeeds, the transaction is sent with that same
    message.  The streaming service drops such a line before queueing it.
    The 400 rejection, with no ledger call, is given exactly to a message
    that is absent, not a string, or the empty string. *)
Theorem whitespace_message_reaches_ledger :
  (forall (c : Contract) (w : string),
      w <> "" -> whitespaceOnly w = true ->
      fst (addLogHandler c (JS.Str w)) <> invalidRequest /\
      (snd (addLogHandler c (JS.Str w)) = [EstimateGas w] \/
       exists gas, snd (addLogHandler c (JS.Str w)) = [SendAddLog w gas; EstimateGas w]) /\
      (forall estimate, estimateGas c w = JS.Fulfilled estimate ->
         exists gas, snd (addLogHandler c (JS.Str w)) = [SendAddLog w gas; EstimateGas w])) /\
  (forall (clock : nat -> Z) (s : State) (w : string),
      whitespaceOnly w = true -> forLine clock w s = (tt, s)) /\
  (forall (c : Contract) (message : JS.value),
      addLogHandler c message = (invalidRequest, []) <->
      match message with JS.Str m => m = "" | _ => True end).
Proof.
  split; [|split].
  - intros c w Hne Hws. rewrite (addLogHandler_string c w Hne).
    destruct (estimateGas c w) as [estimate|error] eqn:Hest.
    + cbv zeta. destruct (send c w _) as [receipt|error] eqn:Hsend; cbn [fst snd].
      * split; [discriminate|]. split; [right; eauto|]. intros estimate' _. eauto.
      * split; [apply errorResponse_not_invalid|]. split; [right; eauto|].
        intros estimate' _. eauto.
    + cbn [fst snd]. split; [apply errorResponse_not_invalid|].
      split; [left; reflexivity | discriminate].
  - intros clock s w Hws. unfold forLine. rewrite (trim_whitespaceOnly w Hws). reflexivity.
  - intros c message.
    destruct message as [| |b|n|m|];
      try (split; [intros _; exact I | intros _; unfold addLogHandler; cbn;
                                       try destruct b; reflexivity]).
    + split; [intros _; exact I|]. intros _. unfold addLogHandler. cbn.
      rewrite orb_true_r. reflexivity.
    + destruct m as [|ch m']; [split; reflexivity|].
      rewrite (addLogHandler_string c (String ch m')) by discriminate.
      split; [|discriminate]. intros H.
      destruct (estimateGas c (String ch m')) as [estimate|error].
      * cbv zeta in H. destruct (send c (String ch m') _).
        -- discriminate H.
        -- injection H as H _. exfalso. exact (errorResponse_not_invalid _ H).
      * injection H as H _. exfalso. exact (errorResponse_not_invalid _ H).
Qed.

(** Three spaces, posted by hand to a reachable node. *)
Lemma whitespace_message_reaches_ledger_witness :
  snd (addLogHandler (deployed []) (JS.Str "   "))
  = [SendAddLog "   " 200000; EstimateGas "   "] /\
  fst (addLogHandler (deployed []) (JS.Str "   ")) <> invalidRequest.
Proof.
  destruct (proj1 whitespace_message_reaches_ledger (deployed []) "   ")
    as (Hvalid & _ & _).
  - discriminate.
  - reflexivity.
  - split; [reflexivity | exact Hvalid].
Defined.

(* ================================================================= *)
(** * Part III.  Further properties of the code                      *)
(* ================================================================= *)

(** ** Further properties of the retrieval handler *)

Lemma findUpperBound_general (c : Contract) (fuel : nat) :
  stable c ->
  forall testIndex calls,
    0 <= testIndex < 500 * Z.of_nat fuel ->
    exists upperBound new,
      findUpperBound fuel c testIndex calls = Some (upperBound, (new ++ calls)%list) /\
      (List.length new <= fuel)%nat /\
      Forall (readWithin 0 testIndex) new /\
      ((upperBound = -1 /\
        forall j, 0 <= j -> 500 * j <= testIndex ->
                  populatedAt c (testIndex - 500 * j) = false) \/
       (populatedAt c upperBound = true /\
        exists j, 0 <= j /\ 500 * j <= testIndex /\ upperBound = testIndex - 500 * j)).
Proof.
  intros Hst.
  induction fuel as [|fuel IH]; intros testIndex calls Hfuel; [lia|].
  simpl. destruct (testIndex >=? 0) eqn:E; [|lia].
  assert (Hread : readWithin 0 testIndex (ReadLog testIndex))
    by (exists testIndex; split; [reflexivity | lia]).
  assert (Hnext :
    populatedAt c testIndex = false ->
    exists upperBound new,
      findUpperBound fuel c (testIndex - 500) (ReadLog testIndex :: calls)
        = Some (upperBound, (new ++ calls)%list) /\
      (List.length new <= S fuel)%nat /\
      Forall (readWithin 0 testIndex) new /\
      ((upperBound = -1 /\
        forall j, 0 <= j -> 500 * j <= testIndex ->
                  populatedAt c (testIndex - 500 * j) = false) \/
       (populatedAt c upperBound = true /\
        exists j, 0 <= j /\ 500 * j <= testIndex /\ upperBound = testIndex - 500 * j))).
  { intros Hempty. destruct (Z_lt_ge_dec testIndex 500) as [Hsmall|Hbig].
    - exists (-1), [ReadLog testIndex]. split; [|split; [|split]].
      + destruct fuel; simpl; destruct (testIndex - 500 >=? 0) eqn:E'; (lia || reflexivity).
      + simpl. lia.
      + repeat constructor. exact Hread.
      + left. split; [reflexivity|]. intros j Hj Hle.
        assert (j = 0) by lia. subst j.
        replace (testIndex - 500 * 0) with testIndex by lia. exact Hempty.
    - destruct (IH (testIndex - 500) (ReadLog testIndex :: calls))
        as (ub & new & Hrun & Hlen & Hreads & Hub); [lia|].
      exists ub, (new ++ [ReadLog testIndex])%list.
      split; [rewrite <- app_assoc; exact Hrun|].
      split; [rewrite length_app; simpl; lia|].
      split.
      { apply Forall_app. split; [|repeat constructor; exact Hread].
        eapply Forall_impl; [|exact Hreads].
        intros call (i & -> & Hi). exists i. split; [reflexivity | lia]. }
      destruct Hub as [[-> Hnone]|(Hpop & j & Hj & Hle & ->)].
      + left. split; [reflexivity|]. intros j Hj Hle.
        destruct (Z.eq_dec j 0) as [->|Hpos].
        * replace (testIndex - 500 * 0) with testIndex by lia. exact Hempty.
        * replace (testIndex - 500 * j) with (testIndex - 500 - 500 * (j - 1)) by lia.
          apply Hnone; lia.
      + right. split; [exact Hpop|]. exists (j + 1). repeat split; lia. }
  unfold populatedAt in Hnext at 1. rewrite (Hst (List.length calls)).
  destruct (logs c 0%nat testIndex) as [testLog|e] eqn:Hread'.
  - destruct (JS.truthyString (SecureLog.message testLog)) eqn:Hmsg.
    + exists testIndex, [ReadLog testIndex]. split; [reflexivity|].
      split; [simpl; lia|]. split; [repeat constructor; exact Hread|].
      right. unfold populatedAt. rewrite Hread', Hmsg. split; [reflexivity|].
      exists 0. repeat split; lia.
    + apply Hnext; reflexivity.
  - apply Hnext; reflexivity.
Qed.

Lemma binarySearch_general (c : Contract) (fuel : nat) :
  stable c ->
  forall low high highestIndex calls,
    high - low + 1 <= Z.of_nat fuel ->
    exists r new,
      binarySearch fuel c low high highestIndex calls = Some (r, (new ++ calls)%list) /\
      Forall (readWithin low high) new /\
      (r = highestIndex \/ (populatedAt c r = true /\ low <= r <= high)).
Proof.
  intros Hst.
  induction fuel as [|fuel IH]; intros low high highestIndex calls Hfuel; simpl.
  - destruct (low <=? high) eqn:E; [lia|]. exists highestIndex, []. auto.
  - destruct (low <=? high) eqn:E; [|exists highestIndex, []; auto].
    apply Z.leb_le in E.
    assert (Hmid : low <= (low + high) / 2 <= high)
      by (split; [apply Z.div_le_lower_bound | apply Z.div_le_upper_bound]; lia).
    set (mid := (low + high) / 2) in *.
    assert (Hstep : forall lo hi best,
               low <= lo -> hi <= high -> hi - lo + 1 <= Z.of_nat fuel ->
               (best = highestIndex \/ (populatedAt c best = true /\ low <= best <= high)) ->
               exists r new,
                 binarySearch fuel c lo hi best (ReadLog mid :: calls)
                   = Some (r, (new ++ calls)%list) /\
                 Forall (readWithin low high) new /\
                 (r = highestIndex \/ (populatedAt c r = true /\ low <= r <= high))).
    { intros lo hi best Hlo Hhi Hf Hbest.
      destruct (IH lo hi best (ReadLog mid :: calls) Hf) as (r & new & Hrun & Hreads & Hr).
      exists r, (new ++ [ReadLog mid])%list.
      split; [rewrite <- app_assoc; exact Hrun|]. split.
      - apply Forall_app. split.
        + eapply Forall_impl; [|exact Hreads].
          intros call (i & -> & Hi). exists i. split; [reflexivity | lia].
        + repeat constructor. exists mid. split; [reflexivity | lia].
      - destruct Hr as [->|(Hp & Hrange)]; [exact Hbest|]. right. split; [exact Hp | lia]. }
    rewrite (Hst (List.length calls)).
    destruct (logs c 0%nat mid) as [testLog|e] eqn:Hread.
    + destruct (JS.truthyString (SecureLog.message testLog)) eqn:Hmsg.
      * apply Hstep; try lia. right. unfold populatedAt. rewrite Hread, Hmsg.
        split; [reflexivity | lia].
      * apply Hstep; try lia; left; reflexivity.
    + apply Hstep; try lia; left; reflexivity.
Qed.

(** With a populated lower bound the search ends on a populated index. *)
Lemma binarySearch_finds (c : Contract) (lo0 hi0 : Z) (fuel : nat) :
  stable c ->
  forall low high highestIndex calls,
    high - low + 1 <= Z.of_nat fuel ->
    lo0 <= low -> high <= hi0 ->
    ((populatedAt c highestIndex = true /\ lo0 <= highestIndex <= hi0) \/
     (populatedAt c low = true /\ low <= high)) ->
    exists r calls',
      binarySearch fuel c low high highestIndex calls = Some (r, calls') /\
      populatedAt c r = true /\ lo0 <= r <= hi0.
Proof.
  intros Hst.
  induction fuel as [|fuel IH]; intros low high highestIndex calls Hfuel Hlo Hhi Hinv; simpl.
  - destruct (low <=? high) eqn:E; [lia|].
    destruct Hinv as [Hbest|[_ Hle]]; [|lia]. eauto.
  - destruct (low <=? high) eqn:E.
    2:{ destruct Hinv as [Hbest|[_ Hle]]; [|lia]. eauto. }
    apply Z.leb_le in E.
    assert (Hmid : low <= (low + high) / 2 <= high)
      by (split; [apply Z.div_le_lower_bound | apply Z.div_le_upper_bound]; lia).
    set (mid := (low + high) / 2) in *.
    assert (Hdown : populatedAt c mid = false ->
                    (populatedAt c highestIndex = true /\ lo0 <= highestIndex <= hi0) \/
                    (populatedAt c low = true /\ low <= mid - 1)).
    { intros Hempty. destruct Hinv as [Hbest|[Hpop _]]; [left; exact Hbest|].
      right. split; [exact Hpop|].
      destruct (Z.eq_dec mid low) as [Heq|Hne]; [rewrite Heq in Hempty; congruence | lia]. }
    unfold populatedAt in Hdown at 1. rewrite (Hst (List.length calls)).
    destruct (logs c 0%nat mid) as [testLog|e] eqn:Hread.
    + destruct (JS.truthyString (SecureLog.message testLog)) eqn:Hmsg.
      * apply IH; try lia. left. unfold populatedAt. rewrite Hread, Hmsg.
        split; [reflexivity | lia].
      * apply IH; try lia. apply Hdown; reflexivity.
    + apply IH; try lia. apply Hdown; reflexivity.
Qed.

(** The forward scan starts at index 0: when that index is not populated
    and reads are stable it stops after one read. *)
Lemma scanForward_stops (c : Contract) (fuel : nat) (highestIndex : Z)
    (calls : list LedgerCall) :
  stable c -> populatedAt c 0 = false -> (0 < fuel)%nat ->
  scanForward fuel c 0 highestIndex calls = Some (highestIndex, ReadLog 0 :: calls).
Proof.
  intros Hst Hzero Hfuel. destruct fuel as [|fuel]; [lia|]. simpl.
  unfold populatedAt in Hzero. rewrite (Hst (List.length calls)).
  destruct (logs c 0%nat 0) as [log|e]; [rewrite Hzero|]; reflexivity.
Qed.

(** The discovery on a contract with stable reads. *)
Lemma locateHighestIndex_general (c : Contract) :
  stable c ->
  exists h calls,
    locateHighestIndex c = Some (h, calls) /\
    (List.length calls <= 31)%nat /\
    Forall (readWithin 0 11000) calls /\
    -1 <= h <= 11000 /\
    (h = -1 <-> forall j, 0 <= j <= 20 -> populatedAt c (500 * j) = false) /\
    (h <> -1 -> populatedAt c h = true).
Proof.
  intros Hst. unfold locateHighestIndex.
  destruct (findUpperBound_general c 21 Hst 10000 [])
    as (ub & new & Hrun & Hlen & Hreads & Hub); [lia|].
  rewrite app_nil_r in Hrun. rewrite Hrun.
  assert (Hreads' : Forall (readWithin 0 11000) new).
  { eapply Forall_impl; [|exact Hreads].
    intros call (i & -> & Hi). exists i. split; [reflexivity | lia]. }
  destruct Hub as [[-> Hnone]|(Hpop & j & Hj & Hle & Hub)].
  - assert (Hzero : populatedAt c 0 = false)
      by (replace 0 with (10000 - 500 * 20) by lia; apply Hnone; lia).
    replace (-1 >=? 0) with false by reflexivity.
    assert (Hscan : scanForward 5000 c 0 (-1) new = Some (-1, ReadLog 0 :: new))
      by (apply scanForward_stops; [exact Hst | exact Hzero | lia]).
    exists (-1), (ReadLog 0 :: new). split; [exact Hscan|].
    split; [simpl; lia|]. split.
    { constructor; [exists 0; split; [reflexivity | lia] | exact Hreads']. }
    split; [lia|]. split; [|congruence]. split; [|reflexivity].
    intros _ k Hk. replace (500 * k) with (10000 - 500 * (20 - k)) by lia. apply Hnone; lia.
  - subst ub. replace (10000 - 500 * j >=? 0) with true by lia.
    destruct (binarySearch_general c 1001 Hst (10000 - 500 * j) (10000 - 500 * j + 1000) (-1) new)
      as (r & new' & Hbin & Hreads2 & Hr); [lia|].
    exists r, (new' ++ new)%list. split; [exact Hbin|].
    assert (Hcount : (List.length (new' ++ new) <= List.length new + 10)%nat).
    { apply (binarySearch_calls c 1001 10) in Hbin; [exact Hbin|].
      change (2 ^ Z.of_nat 10) with 1024. lia. }
    split; [lia|]. split.
    { apply Forall_app. split; [|exact Hreads'].
      eapply Forall_impl; [|exact Hreads2].
      intros call (i & -> & Hi). exists i. split; [reflexivity | lia]. }
    assert (Hfound : populatedAt c r = true /\ 10000 - 500 * j <= r <= 10000 - 500 * j + 1000).
    { destruct (binarySearch_finds c (10000 - 500 * j) (10000 - 500 * j + 1000) 1001 Hst
                  (10000 - 500 * j) (10000 - 500 * j + 1000) (-1) new)
        as (r' & calls' & Hbin' & Hfound); try lia.
      { right. split; [exact Hpop | lia]. }
      rewrite Hbin' in Hbin. injection Hbin as -> _. exact Hfound. }
    split; [lia|]. split; [|intros _; apply Hfound].
    split; [lia|]. intros Hnone. exfalso.
    assert (populatedAt c (500 * (20 - j)) = false) by (apply Hnone; lia).
    replace (500 * (20 - j)) with (10000 - 500 * j) in * by lia. congruence.
Qed.

(** The ledger of 200 entries when the coarse probe's read of index 0,
    call number 20 of the request, is refused and every later call is
    answered: the forward scan, which reads index 0 again, now walks the
    whole array. *)
Example transient_refusal_example :
  let c := refusingCall (deployed (dense 200)) 20 connectionRefused in
  option_map (fun r => (fst r, List.length (snd r))) (locateHighestIndex c)
  = Some (199, 222%nat) /\
  option_map (fun r => (reportedCount (fst r), List.length (snd r))) (getLogsHandler c)
  = Some (Some 200, 322%nat).
Proof. split; vm_compute; reflexivity. Qed.

(** X1.  Whatever the contract answers, and however its answers change
    from one call to the next, the index discovery returns after at most
    5021 reads (21 of the coarse probe, then at most 10 of the binary
    search or at most 5000 of the forward scan), all of indices between 0
    and 11000, and its result is -1 or an index, at most 11000, that one of
    these reads found populated.  When the reads are stable the discovery
    makes at most 31 reads, and its result is -1 exactly when none of the
    21 coarse indices 0, 500, ..., 10000 is populated: the forward scan
    restarts at index 0, which the coarse probe has just found empty, so it
    finds nothing. *)
Theorem discovery_is_sound_and_bounded (c : Contract) :
  exists h calls,
    locateHighestIndex c = Some (h, calls) /\
    Z.of_nat (List.length calls) <= 5021 /\
    Forall (readWithin 0 11000) calls /\
    -1 <= h <= 11000 /\
    (h <> -1 -> readPopulated c calls h) /\
    (stable c ->
     (List.length calls <= 31)%nat /\
     (h = -1 <-> forall j, 0 <= j <= 20 -> populatedAt c (500 * j) = false) /\
     (h <> -1 -> populatedAt c h = true)).
Proof.
  destruct (locateHighestIndex_reads c) as (h & calls & Hloc & Hlen & Hreads & Hh & Hpop).
  exists h, calls. repeat (split; [assumption|]).
  intros Hst.
  destruct (locateHighestIndex_general c Hst)
    as (h' & calls' & Hloc' & Hlen' & _ & _ & Hnone & Hsome).
  rewrite Hloc in Hloc'. injection Hloc' as <- <-. auto.
Qed.

(** The ledger of 3164 entries of the README, held by a node that answers
    every call. *)
Lemma discovery_is_sound_and_bounded_witness :
  exists h calls,
    locateHighestIndex (deployed (dense 3164)) = Some (h, calls) /\
    (List.length calls <= 31)%nat.
Proof.
  destruct (discovery_is_sound_and_bounded (deployed (dense 3164)))
    as (h & calls & Hloc & _ & _ & _ & _ & Hstable).
  exists h, calls. split; [exact Hloc|].
  apply Hstable. apply stable_deployed.
Defined.

(** X2.  Whatever the contract answers, and however its answers change
    from one call to the next, a request to GET /logs is answered after at
    most 5121 reads by index (at most 5021 to locate, at most 100 to
    fetch), all of indices between 0 and 11000, and never calls getLogs():
    every read is caught on its own, so the bulk fallback is not reached.
    When the reads are stable the request costs at most 131 reads. *)
Theorem retrieval_reads_bounded (c : Contract) :
  exists response calls,
    getLogsHandler c = Some (response, calls) /\
    Z.of_nat (List.length calls) <= 5121 /\
    Forall (readWithin 0 11000) calls /\
    (forall gas, ~ In (ReadAll gas) calls) /\
    (stable c -> (List.length calls <= 131)%nat).
Proof.
  destruct (getLogsHandler_reads c)
    as (h & calls0 & count & displayed & found & new & Hloc & Hrun & _ & Hnew & Hall).
  destruct (locateHighestIndex_reads c) as (h' & calls' & Hloc' & Hlen & _).
  rewrite Hloc in Hloc'. injection Hloc' as <- <-.
  eexists. eexists. split; [exact Hrun|].
  split; [rewrite length_app; lia|]. split; [exact Hall|]. split.
  - intros gas Hin. rewrite Forall_forall in Hall. destruct (Hall _ Hin) as (i & Hi & _).
    discriminate Hi.
  - intros Hst. destruct (locateHighestIndex_general c Hst) as (h' & calls' & Hloc' & Hlen' & _).
    rewrite Hloc in Hloc'. injection Hloc' as <- <-.
    rewrite length_app. lia.
Qed.

(** The ledger of 3164 entries of the README, held by a node that answers
    every call. *)
Lemma retrieval_reads_bounded_witness :
  exists response calls,
    getLogsHandler (deployed (dense 3164)) = Some (response, calls) /\
    (List.length calls <= 131)%nat.
Proof.
  destruct (retrieval_reads_bounded (deployed (dense 3164)))
    as (response & calls & Hrun & _ & _ & _ & Hstable).
  exists response, calls. split; [exact Hrun|].
  apply Hstable. apply stable_deployed.
Defined.

(** ** Appending and reading back *)

Lemma logsGetter_old (st : storage) (log : LogEntry) (i : Z) :
  0 <= i < Z.of_nat (List.length st) ->
  logsGetter (st ++ [log])%list i = logsGetter st i.
Proof.
  intros Hi. unfold logsGetter. rewrite length_app, Nat2Z.inj_add. cbn [List.length].
  change (Z.of_nat 1) with 1.
  assert (E1 : true = (0 <=? i) && (i <? Z.of_nat (List.length st) + 1)) by lia.
  assert (E2 : true = (0 <=? i) && (i <? Z.of_nat (List.length st))) by lia.
  rewrite <- E1, <- E2, nth_error_app1 by lia. reflexivity.
Qed.

Lemma logsGetter_new (st : storage) (log : LogEntry) :
  logsGetter (st ++ [log])%list (Z.of_nat (List.length st)) = JS.Fulfilled log.
Proof.
  unfold logsGetter. rewrite length_app, Nat2Z.inj_add. cbn [List.length].
  change (Z.of_nat 1) with 1.
  assert (E : true = (0 <=? Z.of_nat (List.length st)) &&
                     (Z.of_nat (List.length st) <? Z.of_nat (List.length st) + 1))
    by (symmetry; apply andb_true_iff; split; [apply Z.leb_le | apply Z.ltb_lt]; lia).
  rewrite <- E, Nat2Z.id, nth_error_app2, Nat.sub_diag by lia. reflexivity.
Qed.

Lemma logsGetter_outside (st : storage) (i : Z) :
  i < 0 \/ Z.of_nat (List.length st) <= i -> logsGetter st i = JS.Rejected revert.
Proof.
  intros Hi. unfold logsGetter.
  assert (E : false = (0 <=? i) && (i <? Z.of_nat (List.length st))) by lia.
  rewrite <- E. reflexivity.
Qed.

Lemma readAt_deployed_old (st : storage) (log : LogEntry) (i : Z) :
  0 <= i < Z.of_nat (List.length st) ->
  readAt (deployed (st ++ [log])%list) i = readAt (deployed st) i.
Proof.
  intros Hi. unfold readAt, deployed. cbn [logs]. rewrite logsGetter_old by exact Hi.
  reflexivity.
Qed.

Lemma readAt_deployed_new (st : storage) (log : LogEntry) :
  JS.truthyString (SecureLog.message log) = true ->
  readAt (deployed (st ++ [log])%list) (Z.of_nat (List.length st))
  = [format (Z.of_nat (List.length st)) log].
Proof.
  intros Hmsg. unfold readAt, deployed. cbn [logs]. rewrite logsGetter_new, Hmsg.
  reflexivity.
Qed.

Lemma kept_old (st : storage) (log : LogEntry) (n : nat) :
  forall hi, hi < Z.of_nat (List.length st) -> 0 <= hi - Z.of_nat n + 1 ->
    flat_map (readAt (deployed (st ++ [log])%list)) (downFrom hi n)
    = flat_map (readAt (deployed st)) (downFrom hi n).
Proof.
  induction n as [|n IH]; intros hi Hhi Hlo; simpl; [reflexivity|].
  rewrite readAt_deployed_old by lia. rewrite IH by lia. reflexivity.
Qed.

(** The handler on a well-filled array of at most 11001 entries. *)
Lemma getLogsHandler_dense (st : storage) :
  wellFilled st -> Z.of_nat (List.length st) <= 11001 ->
  exists calls,
    getLogsHandler (deployed st) =
    Some (let found := flat_map (readAt (deployed st))
                         (downFrom (Z.of_nat (List.length st) - 1)
                            (Nat.min 100 (List.length st))) in
          LogsJson (Z.of_nat (List.length st)) (Z.of_nat (List.length found)) found,
          calls).
Proof.
  intros Hfilled Hsize. destruct st as [|log st'] eqn:Hst.
  - eexists. vm_compute. reflexivity.
  - rewrite <- Hst in *.
    assert (0 < List.length st)%nat by (rewrite Hst; simpl; lia).
    set (k := Z.of_nat (List.length st) - 1).
    destruct (getLogsHandler_spec (deployed st) (stable_deployed st))
      as (h & calls0 & calls & Hloc & Hrun & _).
    destruct (locateHighestIndex_exact (deployed st) k) as (calls1 & Hloc' & _).
    { apply stable_deployed. }
    { unfold k; lia. }
    { intros i Hi. rewrite populatedAt_deployed by assumption. unfold k. lia. }
    rewrite Hloc' in Hloc. injection Hloc as <- _.
    exists calls. cbv zeta in Hrun |- *. rewrite Hrun.
    replace (Z.to_nat (Z.min (k + 1) 100)) with (Nat.min 100 (List.length st))
      by (unfold k; lia).
    replace (k + 1) with (Z.of_nat (List.length st)) by (unfold k; lia).
    reflexivity.
Qed.

(** ** The contract *)

(** X4.  [addLog] appends: the new entry is read back at the index that
    was the length, every earlier index reads as before, and the index
    after it still reverts. *)
Theorem addLog_appends (st : storage) (m from : string) (blockTime : Z) :
  let st' := addLog m from blockTime st in
  let n := Z.of_nat (List.length st) in
  logsGetter st' n = JS.Fulfilled (stored m from blockTime) /\
  (forall i, 0 <= i < n -> logsGetter st' i = logsGetter st i) /\
  (forall i, i < 0 \/ n < i -> logsGetter st' i = JS.Rejected revert) /\
  logsGetter st n = JS.Rejected revert /\
  getLogs (deployed st') = JS.Fulfilled (st ++ [stored m from blockTime])%list.
Proof.
  cbv zeta. unfold addLog. fold (stored m from blockTime).
  split; [apply logsGetter_new|]. split; [intros i Hi; apply logsGetter_old, Hi|].
  split; [|split; [apply logsGetter_outside; lia | reflexivity]].
  intros i Hi. apply logsGetter_outside. rewrite length_app. cbn [List.length]. lia.
Qed.

Lemma addLog_appends_witness :
  logsGetter (addLog "new" "0xB" 7 (dense 3)) 1 = logsGetter (dense 3) 1 /\
  logsGetter (addLog "new" "0xB" 7 (dense 3)) 3 = JS.Fulfilled (stored "new" "0xB" 7).
Proof.
  destruct (addLog_appends (dense 3) "new" "0xB" 7) as (Hnew & Hold & _).
  split; [apply Hold; simpl; lia | exact Hnew].
Defined.

(** X5.  After an entry with a non-empty message is appended to a
    well-filled ledger that stays within 11001 entries, GET /logs reports
    one entry more and lists the new entry first, under the index that was
    the length, followed by the earlier indices in descending order. *)
Theorem appended_entry_is_listed_first (st : storage) (m from : string) (blockTime : Z) :
  wellFilled st -> m <> "" -> Z.of_nat (List.length st) + 1 <= 11001 ->
  exists older calls,
    getLogsHandler (deployed (addLog m from blockTime st)) =
    Some (LogsJson (Z.of_nat (List.length st) + 1)
            (Z.of_nat (S (List.length older)))
            (format (Z.of_nat (List.length st)) (stored m from blockTime) :: older),
          calls) /\
    map index older
    = downFrom (Z.of_nat (List.length st) - 1) (Nat.min 99 (List.length st)).
Proof.
  intros Hfilled Hm Hsize. unfold addLog. fold (stored m from blockTime).
  assert (Hmsg : JS.truthyString (SecureLog.message (stored m from blockTime)) = true)
    by (destruct m; [congruence | reflexivity]).
  assert (Hfilled' : wellFilled (st ++ [stored m from blockTime])%list).
  { apply Forall_app. split; [exact Hfilled | repeat constructor; exact Hmsg]. }
  destruct (getLogsHandler_dense _ Hfilled') as [calls Hrun].
  { rewrite length_app. cbn [List.length]. lia. }
  cbv zeta in Hrun. rewrite length_app in Hrun. cbn [List.length] in Hrun.
  replace (Nat.min 100 (List.length st + 1)) with (S (Nat.min 99 (List.length st)))
    in Hrun by lia.
  replace (Z.of_nat (List.length st + 1) - 1) with (Z.of_nat (List.length st))
    in Hrun by lia.
  cbn [downFrom flat_map] in Hrun.
  rewrite readAt_deployed_new in Hrun by exact Hmsg.
  rewrite kept_old in Hrun; [| lia | rewrite Nat2Z.inj_min; lia].
  exists (flat_map (readAt (deployed st))
            (downFrom (Z.of_nat (List.length st) - 1) (Nat.min 99 (List.length st)))), calls.
  split.
  - rewrite Hrun. cbn [app List.length].
    replace (Z.of_nat (List.length st + 1)) with (Z.of_nat (List.length st) + 1) by lia.
    reflexivity.
  - rewrite kept_indices.
    apply downFrom_all_populated; [exact Hfilled | lia | rewrite Nat2Z.inj_min; lia].
Qed.

Lemma appended_entry_is_listed_first_witness :
  exists older calls,
    getLogsHandler (deployed (addLog "new" "0xB" 7 (dense 3))) =
    Some (LogsJson 4 4 (format 3 (stored "new" "0xB" 7) :: older), calls) /\
    map index older = [2; 1; 0].
Proof.
  destruct (appended_entry_is_listed_first (dense 3) "new" "0xB" 7)
    as (older & calls & Hrun & Hidx).
  - apply wellFilled_dense.
  - discriminate.
  - rewrite dense_length. lia.
  - exists older, calls. split; [|exact Hidx].
    assert (Hlen : List.length older = 3%nat)
      by (rewrite <- (length_map index), Hidx; reflexivity).
    rewrite Hlen in Hrun. exact Hrun.
Defined.

(** ** POST /add-log: the calls it makes and the errors it reports *)

Lemma prefix_spec (p s : string) :
  String.prefix p s = true <-> exists rest, s = p ++ rest.
Proof.
  revert s. induction p as [|ch p IH]; intros s.
  - split; [intros _; exists s; reflexivity | intros _; destruct s; reflexivity].
  - destruct s as [|ch' s']; simpl;
      [split; [discriminate | intros [rest H]; discriminate H]|].
    destruct (Ascii.ascii_dec ch ch') as [->|Hne].
    + rewrite IH. split; intros [rest H]; exists rest.
      * rewrite H. reflexivity.
      * injection H as H. exact H.
    + split; [discriminate|]. intros [rest H]. injection H as Heq _. congruence.
Qed.

(** [includes] is containment of the needle as a substring. *)
Lemma includes_spec (s needle : string) :
  JS.includes s needle = true <-> exists before after, s = before ++ needle ++ after.
Proof.
  induction s as [|ch s IH]; cbn [JS.includes].
  - rewrite orb_false_r, prefix_spec. split.
    + intros [rest H]. exists "", rest. exact H.
    + intros (before & after & H). destruct before as [|b before]; [eauto | discriminate H].
  - rewrite orb_true_iff, prefix_spec, IH. split.
    + intros [[rest H]|(before & after & H)].
      * exists "", rest. exact H.
      * exists (String ch before), after. simpl. rewrite H. reflexivity.
    + intros (before & after & H). destruct before as [|b before].
      * left. exists after. exact H.
      * right. simpl in H. injection H as _ H. eauto.
Qed.

(** X6.  The catch clause of both handlers answers 503, with a fixed text
    in place of the error's own message, exactly when the error's message
    holds one of the markers ETIMEDOUT, ECONNREFUSED, connect or fetch
    failed somewhere in it; any other error is answered 500 with its
    message passed on unchanged. *)
Theorem error_status_by_substring (what : string) (error : JS.Error) :
  let marked :=
    exists marker before after,
      In marker ["ETIMEDOUT"; "ECONNREFUSED"; "connect"; "fetch failed"] /\
      JS.message error = before ++ marker ++ after in
  (marked ->
   errorResponse what error =
   ErrorJson 503 what
     "Cannot connect to Ganache. Please make sure Ganache is running on port 7545.") /\
  (~ marked -> errorResponse what error = ErrorJson 500 what (JS.message error)).
Proof.
  cbv zeta. unfold errorResponse.
  destruct (JS.includes (JS.message error) "ETIMEDOUT") eqn:H1;
    [|destruct (JS.includes (JS.message error) "ECONNREFUSED") eqn:H2;
      [|destruct (JS.includes (JS.message error) "connect") eqn:H3;
        [|destruct (JS.includes (JS.message error) "fetch failed") eqn:H4]]];
    cbn [orb].
  1-4: split; [reflexivity|]; intros Hnot; exfalso; apply Hnot.
  - apply includes_spec in H1. destruct H1 as (b & a & H).
    exists "ETIMEDOUT", b, a. split; [simpl; auto | exact H].
  - apply includes_spec in H2. destruct H2 as (b & a & H).
    exists "ECONNREFUSED", b, a. split; [simpl; auto | exact H].
  - apply includes_spec in H3. destruct H3 as (b & a & H).
    exists "connect", b, a. split; [simpl; auto | exact H].
  - apply includes_spec in H4. destruct H4 as (b & a & H).
    exists "fetch failed", b, a. split; [simpl; auto | exact H].
  - split; [|reflexivity]. intros (marker & b & a & Hin & H). exfalso.
    assert (Hinc : JS.includes (JS.message error) marker = true)
      by (apply includes_spec; eauto).
    simpl in Hin. destruct Hin as [<-|[<-|[<-|[<-|[]]]]]; congruence.
Qed.

Lemma error_status_by_substring_witness :
  errorResponse "Failed to add log" (JS.mkError None "socket disconnected before reply")
  = ErrorJson 503 "Failed to add log"
      "Cannot connect to Ganache. Please make sure Ganache is running on port 7545.".
Proof.
  apply (proj1 (error_status_by_substring "Failed to add log"
                  (JS.mkError None "socket disconnected before reply"))).
  exists "connect", "socket dis", "ed before reply". split; [simpl; auto | reflexivity].
Defined.

(** X7.  POST /add-log never sends a transaction it has not estimated:
    whenever addLog(m).send is called, the body's message is the non-empty
    string m, the estimate for m succeeded just before, nothing else was
    called, and the gas limit is the larger of estimate + 100000 and
    200000.  When the estimate fails, the estimate is the only call and the
    answer is the catch clause's. *)
Theorem addLog_sends_only_after_estimate (c : Contract) (message : JS.value) :
  (forall m gas,
      In (SendAddLog m gas) (snd (addLogHandler c message)) ->
      message = JS.Str m /\ m <> "" /\
      exists estimate,
        estimateGas c m = JS.Fulfilled estimate /\
        gas = Z.max (estimate + 100000) 200000 /\
        snd (addLogHandler c message) = [SendAddLog m gas; EstimateGas m]) /\
  (forall m error,
      message = JS.Str m -> m <> "" -> estimateGas c m = JS.Rejected error ->
      addLogHandler c message = (errorResponse "Failed to add log" error, [EstimateGas m])).
Proof.
  split.
  - intros m gas Hin.
    destruct message as [| |b|n|m'|];
      try (unfold addLogHandler in Hin; cbn in Hin;
           try destruct b; try rewrite orb_true_r in Hin; cbn in Hin; contradiction).
    destruct m' as [|ch m'']; [cbn in Hin; contradiction|].
    rewrite (addLogHandler_string c (String ch m'')) in Hin |- * by discriminate.
    destruct (estimateGas c (String ch m'')) as [estimate|error] eqn:Hest.
    + cbv zeta in Hin |- *.
      assert (Hgas : (if estimate + 100000 >? 200000 then estimate + 100000 else 200000)
                     = Z.max (estimate + 100000) 200000)
        by (destruct (estimate + 100000 >? 200000) eqn:E; lia).
      rewrite Hgas in Hin |- *.
      assert (Hcalls : forall r : Response,
                 In (SendAddLog m gas)
                    (snd (r, [SendAddLog (String ch m'') (Z.max (estimate + 100000) 200000);
                              EstimateGas (String ch m'')])) ->
                 m = String ch m'' /\ gas = Z.max (estimate + 100000) 200000).
      { intros r [H|[H|[]]]; [injection H as <- <-; auto | discriminate H]. }
      destruct (send c (String ch m'') _) as [receipt|error];
        apply Hcalls in Hin; destruct Hin as [-> ->];
        (split; [reflexivity|]; split; [discriminate|]; exists estimate; auto).
    + cbn in Hin. destruct Hin as [H|[]]. discriminate H.
  - intros m error -> Hne Hest. rewrite (addLogHandler_string c m Hne), Hest. reflexivity.
Qed.

Lemma addLog_sends_only_after_estimate_witness :
  addLogHandler (unreachable connectionRefused) (JS.Str "boot completed")
  = (ErrorJson 503 "Failed to add log"
       "Cannot connect to Ganache. Please make sure Ganache is running on port 7545.",
     [EstimateGas "boot completed"]).
Proof.
  rewrite (proj2 (addLog_sends_only_after_estimate (unreachable connectionRefused)
                    (JS.Str "boot completed")) "boot completed" connectionRefused);
    [reflexivity | reflexivity | discriminate | reflexivity].
Defined.

(** ** Line assembly *)

Lemma splitLines_nonempty (s : string) : JS.splitLines s <> [].
Proof.
  destruct s as [|ch s]; simpl; [discriminate|].
  destruct (Ascii.eqb ch "010"%char); [discriminate|].
  destruct (JS.splitLines s); discriminate.
Qed.

Lemma removelast_cons {A : Type} (x : A) (l : list A) :
  l <> [] -> removelast (x :: l) = x :: removelast l.
Proof. destruct l; [congruence | reflexivity]. Qed.

Lemma last_cons {A : Type} (x d : A) (l : list A) : l <> [] -> last (x :: l) d = last l d.
Proof. destruct l; [congruence | reflexivity]. Qed.

(** Splitting a text cut in two: the lines before the cut's last line
    break, then the split of that last piece followed by the rest. *)
Lemma splitLines_app (a b : string) :
  JS.splitLines (a ++ b)
  = (removelast (JS.splitLines a) ++ JS.splitLines (last (JS.splitLines a) "" ++ b))%list.
Proof.
  induction a as [|ch a IH]; [reflexivity|].
  cbn [append JS.splitLines]. destruct (Ascii.eqb ch "010"%char) eqn:Hch.
  - rewrite removelast_cons, last_cons by apply splitLines_nonempty.
    rewrite IH. reflexivity.
  - rewrite IH. destruct (JS.splitLines a) as [|l ls] eqn:Ha.
    + exfalso. exact (splitLines_nonempty a Ha).
    + destruct ls as [|l2 ls'].
      * cbn [removelast last app append JS.splitLines]. rewrite Hch. reflexivity.
      * rewrite removelast_cons, last_cons by discriminate.
        rewrite (removelast_cons (String ch l)), (last_cons (String ch l)) by discriminate.
        reflexivity.
Qed.

Lemma removelast_last_app {A : Type} (l1 l2 : list A) (d : A) :
  l2 <> [] ->
  removelast (l1 ++ l2) = (l1 ++ removelast l2)%list /\ last (l1 ++ l2) d = last l2 d.
Proof.
  intros Hne. split; [apply removelast_app, Hne|].
  induction l1 as [|x l1 IH]; [reflexivity|].
  cbn [app]. rewrite last_cons; [exact IH|]. destruct l1; [exact Hne | discriminate].
Qed.

Lemma splitLines_no_newline (s : string) :
  Forall (fun l => hasNewline l = false) (JS.splitLines s).
Proof.
  induction s as [|ch s IH]; simpl; [repeat constructor|].
  destruct (Ascii.eqb ch "010"%char) eqn:Hch; [constructor; [reflexivity | exact IH]|].
  destruct (JS.splitLines s) as [|l ls]; [repeat constructor; simpl; rewrite Hch; reflexivity|].
  inversion IH as [|? ? Hl Hls]; subst. constructor; [|exact Hls].
  simpl. rewrite Hch, Hl. reflexivity.
Qed.

Lemma joinLines_splitLines (s : string) : joinLines (JS.splitLines s) = s.
Proof.
  induction s as [|ch s IH]; [reflexivity|]. cbn [JS.splitLines].
  destruct (Ascii.eqb ch "010"%char) eqn:Hch.
  - apply Ascii.eqb_eq in Hch. subst ch.
    destruct (JS.splitLines s) as [|l ls] eqn:Hs; [exfalso; exact (splitLines_nonempty s Hs)|].
    change (joinLines ("" :: l :: ls)) with ("" ++ newline ++ joinLines (l :: ls)).
    rewrite IH. reflexivity.
  - destruct (JS.splitLines s) as [|l ls] eqn:Hs; [exfalso; exact (splitLines_nonempty s Hs)|].
    destruct ls as [|l2 ls'].
    + cbn [joinLines] in *. rewrite IH. reflexivity.
    + change (joinLines (String ch l :: l2 :: ls'))
        with (String ch l ++ newline ++ joinLines (l2 :: ls')).
      change (joinLines (l :: l2 :: ls')) with (l ++ newline ++ joinLines (l2 :: ls')) in IH.
      cbn [append]. rewrite IH. reflexivity.
Qed.

(** *** What leaves [logBuffer] alone *)

Lemma set_logBuffer_twice (v w : string) (s : State) :
  set_logBuffer v (set_logBuffer w s) = set_logBuffer v s.
Proof. reflexivity. Qed.

Lemma set_logBuffer_same (s : State) : set_logBuffer (logBuffer s) s = s.
Proof. destruct s; reflexivity. Qed.

Lemma send_buffer (clock : nat -> Z) (message v : string) (s : State) :
  sendLogToBlockchain clock message (set_logBuffer v s)
  = (fst (sendLogToBlockchain clock message s),
     set_logBuffer v (snd (sendLogToBlockchain clock message s))).
Proof.
  destruct s as [b a le ls q st c r t i tm ef]. unfold_js. js_cases; reflexivity.
Qed.

Lemma processLogQueue_buffer (clock : nat -> Z) (v : string) (s : State) :
  snd (processLogQueue clock (set_logBuffer v s))
  = set_logBuffer v (snd (processLogQueue clock s)).
Proof.
  rewrite !processLogQueue_unfold. cbv zeta.
  cbn [ticks lastSentTime logQueue set_logBuffer effects].
  destruct (clock (ticks s) - lastSentTime s <? SEND_INTERVAL_MS); [reflexivity|].
  destruct (logQueue s) as [|message rest]; [reflexivity|].
  match goal with
  | |- context [sendLogToBlockchain clock message ?st] =>
      change st with
        (set_logBuffer v
           (set_effects (Dispatch (clock (S (ticks s))) message :: effects s)
              (set_lastSentTime (clock (S (ticks s)))
                 (set_ticks (S (S (ticks s)))
                    (set_logQueue rest (set_ticks (S (ticks s)) s))))))
  end.
  rewrite send_buffer. cbn [snd].
  match goal with
  | |- context [snd (sendLogToBlockchain clock message ?st)] =>
      generalize (snd (sendLogToBlockchain clock message st))
  end.
  intros s3. cbn [logQueue set_logBuffer].
  destruct (0 <? List.length (logQueue s3))%nat; reflexivity.
Qed.

(** ** What each function of the service emits *)

Ltac effects_done :=
  unfold dispatched, echoed, timeouts, posts, notices, dispatchTimes;
  cbn; rewrite ?flat_map_app; cbn; rewrite ?app_nil_r; auto.

Lemma send_trace (clock : nat -> Z) (message : string) (s : State) :
  let s' := snd (sendLogToBlockchain clock message s) in
  logQueue s' = logQueue s /\ isStopped s' = isStopped s /\ timers s' = timers s /\
  dispatched s' = dispatched s /\ echoed s' = echoed s /\ timeouts s' = timeouts s /\
  ((posts s' = posts s /\ inFlight s' = inFlight s) \/
   (posts s' = (posts s ++ [JS.trim message])%list /\ inFlight s' = S (inFlight s) /\
    JS.truthyString (JS.trim message) = true)) /\
  (dailyLogCount s' = dailyLogCount s \/ dailyLogCount s' = 0).
Proof.
  unfold_js. js_cases.
  all: repeat match goal with |- _ /\ _ => split end.
  all: try solve [effects_done].
  all: try solve [left; reflexivity | right; reflexivity].
  all: try solve [left; split; effects_done].
  all: right; repeat split; try solve [effects_done].
  all: destruct (JS.truthyString (JS.trim message)); [reflexivity|].
  all: cbn [negb] in *; rewrite orb_true_r in *; discriminate.
Qed.

Lemma resume_trace (clock : nat -> Z) (outcome : FetchOutcome) (s : State) :
  let s' := snd (sendLogToBlockchain_resume clock outcome s) in
  logQueue s' = logQueue s /\ isStopped s' = isStopped s /\ timers s' = timers s /\
  inFlight s' = inFlight s /\
  dispatched s' = dispatched s /\ echoed s' = echoed s /\ timeouts s' = timeouts s /\
  posts s' = posts s /\
  dailyLogCount s' = dailyLogCount s + match outcome with ResponseOk => 1 | _ => 0 end.
Proof.
  destruct outcome; unfold_js; js_cases.
  all: repeat match goal with |- _ /\ _ => split end.
  all: try solve [effects_done].
  all: cbn; lia.
Qed.

Lemma processLogQueue_trace (clock : nat -> Z) (s : State) :
  let s' := snd (processLogQueue clock s) in
  isStopped s' = isStopped s /\ echoed s' = echoed s /\
  (logQueue s' <> [] -> (0 < timers s')%nat) /\
  (exists delays, timeouts s' = (timeouts s ++ delays)%list /\ Forall (fun d => 0 < d) delays) /\
  ((logQueue s' = logQueue s /\ dispatched s' = dispatched s /\ posts s' = posts s /\
    inFlight s' = inFlight s /\ dailyLogCount s' = dailyLogCount s) \/
   (exists message rest,
       logQueue s = message :: rest /\ logQueue s' = rest /\
       dispatched s' = (dispatched s ++ [message])%list /\
       ((posts s' = posts s /\ inFlight s' = inFlight s) \/
        (posts s' = (posts s ++ [JS.trim message])%list /\ inFlight s' = S (inFlight s) /\
         JS.truthyString (JS.trim message) = true)) /\
       (dailyLogCount s' = dailyLogCount s \/ dailyLogCount s' = 0))).
Proof.
  rewrite processLogQueue_unfold. cbv zeta.
  destruct (clock (ticks s) - lastSentTime s <? SEND_INTERVAL_MS) eqn:Hgate.
  - cbv [setTimeout bind get put emit]. cbn.
    split; [reflexivity|]. split; [effects_done|]. split; [intros _; lia|]. split.
    + exists [SEND_INTERVAL_MS - (clock (ticks s) - lastSentTime s)].
      split; [effects_done|]. repeat constructor. unfold SEND_INTERVAL_MS in *. lia.
    + left. repeat split; effects_done.
  - destruct (logQueue s) as [|message rest] eqn:Hq.
    + cbn. rewrite Hq. split; [reflexivity|]. split; [effects_done|].
      split; [congruence|]. split; [exists []; split; [rewrite app_nil_r|]; effects_done|].
      left. repeat split; effects_done.
    + match goal with
      | |- context [sendLogToBlockchain clock message ?st] =>
          pose proof (send_trace clock message st) as Hsend;
          destruct (sendLogToBlockchain clock message st) as [r s3]
      end.
      cbn [snd] in Hsend |- *.
      destruct Hsend as (Hq3 & Hs3 & Ht3 & Hd3 & He3 & Hto3 & Hp3 & Hc3).
      cbn [logQueue isStopped timers inFlight dailyLogCount set_effects set_lastSentTime
           set_ticks set_logQueue] in Hq3, Hs3, Ht3, Hp3, Hc3.
      assert (Hd : dispatched s3 = (dispatched s ++ [message])%list)
        by (rewrite Hd3; effects_done).
      assert (He : echoed s3 = echoed s) by (rewrite He3; effects_done).
      assert (Hto : timeouts s3 = timeouts s) by (rewrite Hto3; effects_done).
      assert (Hp : (posts s3 = posts s /\ inFlight s3 = inFlight s) \/
                   (posts s3 = (posts s ++ [JS.trim message])%list /\
                    inFlight s3 = S (inFlight s) /\
                    JS.truthyString (JS.trim message) = true)).
      { destruct Hp3 as [[H1 H2]|(H1 & H2 & H3)]; [left|right]; rewrite H1, H2;
          repeat split; effects_done. }
      clear Hd3 He3 Hto3 Hp3.
      destruct (0 <? List.length (logQueue s3))%nat eqn:Hleft; cbv [when].
      * cbv [setTimeout bind get put emit]. cbn [snd].
        cbn [isStopped logQueue timers inFlight dailyLogCount set_timers set_effects].
        split; [exact Hs3|]. split; [rewrite <- He; effects_done|].
        split; [intros _; lia|]. split.
        { exists [SEND_INTERVAL_MS]. split; [rewrite <- Hto; effects_done|].
          repeat constructor. }
        right. exists message, rest. split; [reflexivity|]. split; [exact Hq3|].
        split; [rewrite <- Hd; effects_done|]. split; [|exact Hc3].
        destruct Hp as [[H1 H2]|(H1 & H2 & H3)]; [left|right]; rewrite <- H1, <- H2;
          repeat split; effects_done.
      * cbv [ret]. cbn [snd]. split; [exact Hs3|]. split; [exact He|]. split.
        { intros Hne. destruct (logQueue s3); [congruence | discriminate Hleft]. }
        split; [exists []; rewrite app_nil_r; split; [exact Hto | constructor]|].
        right. exists message, rest. auto.
Qed.

Lemma queueLogForSending_trace (clock : nat -> Z) (line : string) (s : State) :
  let s' := snd (queueLogForSending clock line s) in
  isStopped s' = isStopped s /\ echoed s' = echoed s /\
  (isStopped s = false -> logQueue s' <> [] -> (0 < timers s')%nat) /\
  (isStopped s = true -> s' = s).
Proof.
  cbv zeta. rewrite queueLogForSending_unfold. destruct (isStopped s) eqn:Hstop.
  - repeat split; auto. discriminate.
  - destruct (processLogQueue_trace clock (set_logQueue (enqueue line (logQueue s)) s))
      as (Hs & He & Ht & _).
    cbv zeta in Hs, He, Ht. rewrite Hs, He. repeat split; auto. discriminate.
Qed.

Lemma queueLogForSending_echoed (clock : nat -> Z) (line : string) (s : State) :
  echoed (snd (queueLogForSending clock line
                 (set_effects (Console (EchoLine line) :: effects s) s)))
  = (echoed s ++ [line])%list.
Proof.
  destruct (queueLogForSending_trace clock line
              (set_effects (Console (EchoLine line) :: effects s) s)) as (_ & He & _).
  cbv zeta in He. rewrite He. effects_done.
Qed.

Lemma forEach_cons (clock : nat -> Z) (line : string) (rest : list string) (s : State) :
  snd (forEach clock (line :: rest) s)
  = snd (forEach clock rest (snd (forLine clock line s))).
Proof.
  cbn [forEach]. unfold bind. destruct (forLine clock line s) as [u s1]. reflexivity.
Qed.

Lemma forLine_unfold (clock : nat -> Z) (line : string) (s : State) :
  snd (forLine clock line s)
  = if JS.truthyString (JS.trim line)
    then snd (queueLogForSending clock line
                (set_effects (Console (EchoLine line) :: effects s) s))
    else s.
Proof.
  unfold forLine, when. destruct (JS.truthyString (JS.trim line)); reflexivity.
Qed.

Lemma forEach_buffer (clock : nat -> Z) (v : string) (lines : list string) :
  forall s,
    snd (forEach clock lines (set_logBuffer v s))
    = set_logBuffer v (snd (forEach clock lines s)).
Proof.
  induction lines as [|line rest IH]; intros s; [reflexivity|].
  rewrite !forEach_cons.
  assert (Hline : snd (forLine clock line (set_logBuffer v s))
                  = set_logBuffer v (snd (forLine clock line s))).
  { rewrite !forLine_unfold. destruct (JS.truthyString (JS.trim line)); [|reflexivity].
    rewrite !queueLogForSending_unfold.
    cbn [isStopped set_effects set_logBuffer logQueue effects].
    destruct (isStopped s); [reflexivity|].
    apply (processLogQueue_buffer clock v
             (set_logQueue (enqueue line (logQueue s))
                (set_effects (Console (EchoLine line) :: effects s) s))). }
  rewrite Hline. apply IH.
Qed.

Lemma forEach_app (clock : nat -> Z) (l1 l2 : list string) :
  forall s,
    snd (forEach clock (l1 ++ l2) s) = snd (forEach clock l2 (snd (forEach clock l1 s))).
Proof.
  induction l1 as [|line rest IH]; intros s; [reflexivity|].
  cbn [app]. rewrite !forEach_cons. apply IH.
Qed.

Lemma onData_unfold (clock : nat -> Z) (data : string) (s : State) :
  snd (onData clock data s)
  = set_logBuffer (last (JS.splitLines (logBuffer s ++ data)) "")
      (snd (forEach clock (removelast (JS.splitLines (logBuffer s ++ data))) s)).
Proof.
  unfold onData. cbv [bind get put]. apply forEach_buffer.
Qed.

(** X8.  How the stream is cut into chunks does not matter: two chunks
    delivered one after the other leave the service in the state in which
    the single chunk made of both would leave it: the same lines echoed,
    queued and dispatched, the same partial line kept in the buffer. *)
Theorem chunking_does_not_matter (clock : nat -> Z) (a b : string) (s : State) :
  run clock [Data a; Data b] s = run clock [Data (a ++ b)] s.
Proof.
  cbn [run step]. rewrite !onData_unfold.
  cbn [logBuffer set_logBuffer].
  set (la := JS.splitLines (logBuffer s ++ a)).
  assert (Hsplit : JS.splitLines (logBuffer s ++ (a ++ b))
                   = (removelast la ++ JS.splitLines (last la "" ++ b))%list).
  { replace (logBuffer s ++ (a ++ b)) with ((logBuffer s ++ a) ++ b).
    - apply splitLines_app.
    - generalize (logBuffer s). intros x. induction x as [|ch x IH]; [reflexivity|].
      cbn [append]. rewrite IH. reflexivity. }
  rewrite Hsplit.
  destruct (removelast_last_app (removelast la) (JS.splitLines (last la "" ++ b)) "")
    as [-> ->]; [apply splitLines_nonempty|].
  rewrite forEach_app, forEach_buffer. reflexivity.
Qed.

(** *** The buffer between chunks *)

Lemma forEach_keeps_buffer (clock : nat -> Z) (lines : list string) (s : State) :
  logBuffer (snd (forEach clock lines s)) = logBuffer s.
Proof.
  rewrite <- (set_logBuffer_same s) at 1. rewrite forEach_buffer. reflexivity.
Qed.

Lemma forEach_echoed (clock : nat -> Z) (lines : list string) :
  forall s,
    echoed (snd (forEach clock lines s))
    = (echoed s ++ filter (fun line => JS.truthyString (JS.trim line)) lines)%list.
Proof.
  induction lines as [|line rest IH]; intros s.
  - cbn. rewrite app_nil_r. reflexivity.
  - rewrite forEach_cons, IH, forLine_unfold. cbn [filter].
    destruct (JS.truthyString (JS.trim line)).
    + rewrite queueLogForSending_echoed, <- app_assoc. reflexivity.
    + reflexivity.
Qed.

(** X9.  After every chunk the buffer is the text that followed the last
    line break of the buffered text and the chunk, so it holds no line
    break itself; the complete lines and that rest, joined again by line
    breaks, are exactly the text received. *)
Theorem buffer_keeps_only_the_partial_line (clock : nat -> Z) (data : string) (s : State) :
  let received := logBuffer s ++ data in
  let complete := removelast (JS.splitLines received) in
  let s' := snd (onData clock data s) in
  hasNewline (logBuffer s') = false /\
  Forall (fun line => hasNewline line = false) complete /\
  joinLines (complete ++ [logBuffer s']) = received /\
  echoed s' = (echoed s ++ filter (fun line => JS.truthyString (JS.trim line)) complete)%list.
Proof.
  cbv zeta. rewrite onData_unfold. cbn [logBuffer set_logBuffer].
  pose proof (splitLines_no_newline (logBuffer s ++ data)) as Hno.
  pose proof (splitLines_nonempty (logBuffer s ++ data)) as Hne.
  pose proof (joinLines_splitLines (logBuffer s ++ data)) as Hjoin.
  rewrite (app_removelast_last "" Hne) in Hno, Hjoin.
  apply Forall_app in Hno. destruct Hno as [Hlines Hlast].
  inversion Hlast as [|? ? Hrest _]; subst.
  split; [exact Hrest|]. split; [exact Hlines|]. split; [exact Hjoin|].
  apply (forEach_echoed clock (removelast (JS.splitLines (logBuffer s ++ data))) s).
Qed.

(** ** Properties kept by every event, line by line *)
Section Reachable.
Variable clock : nat -> Z.
Variable P : State -> Prop.

Hypothesis by_line :
  forall s line, P s -> JS.truthyString (JS.trim line) = true ->
    P (snd (queueLogForSending clock line
              (set_effects (Console (EchoLine line) :: effects s) s))).
Hypothesis by_buffer : forall s v, P s -> P (set_logBuffer v s).
Hypothesis by_timer :
  forall s n, P s -> timers s = S n -> P (snd (processLogQueue clock (set_timers n s))).
Hypothesis by_settle :
  forall s n outcome, P s -> inFlight s = S n ->
    P (snd (sendLogToBlockchain_resume clock outcome (set_inFlight n s))).
Hypothesis by_signal : forall s, P s -> P (set_logQueue [] (set_isStopped true s)).

Lemma forEach_holds (lines : list string) : forall s, P s -> P (snd (forEach clock lines s)).
Proof.
  induction lines as [|line rest IH]; intros s H; [exact H|].
  rewrite forEach_cons. apply IH. rewrite forLine_unfold.
  destruct (JS.truthyString (JS.trim line)) eqn:Htext; [apply by_line; assumption | exact H].
Qed.

Lemma step_holds (e : Event) (s : State) : P s -> P (snd (step clock e s)).
Proof.
  intros H. destruct e as [chunk| |outcome|]; cbn [step].
  - rewrite onData_unfold. apply by_buffer, forEach_holds, H.
  - cbv [bind get]. destruct (timers s) as [|n] eqn:Ht; [exact H|].
    cbv [put]. apply by_timer; assumption.
  - cbv [bind get]. destruct (inFlight s) as [|n] eqn:Hn; [exact H|].
    cbv [put ret].
    pose proof (by_settle s n outcome H Hn) as Hs.
    destruct (sendLogToBlockchain_resume clock outcome (set_inFlight n s)) as [b s1].
    exact Hs.
  - unfold onSignal. cbv [bind put]. cbn [snd]. apply by_signal, H.
Qed.

Lemma run_holds (events : list Event) : forall s, P s -> P (run clock events s).
Proof.
  induction events as [|e rest IH]; intros s H; [exact H|].
  cbn [run]. apply IH, step_holds, H.
Qed.

End Reachable.

(** ** Stopping *)

(** X10.  The stop signal is final and can be repeated: handling it twice
    is handling it once, and whatever arrives afterwards (chunks, timers,
    settling fetches, further signals) the queue stays empty, nothing is
    dispatched and nothing is posted. *)
Theorem nothing_is_sent_after_stop (clock : nat -> Z) (events : list Event) (s : State) :
  let stopped := snd (onSignal s) in
  let s' := run clock events stopped in
  snd (onSignal stopped) = stopped /\
  isStopped s' = true /\ logQueue s' = [] /\
  dispatched s' = dispatched s /\ posts s' = posts s.
Proof.
  cbv zeta. split; [reflexivity|].
  apply (run_holds clock
           (fun x => isStopped x = true /\ logQueue x = [] /\
                     dispatched x = dispatched s /\ posts x = posts s)).
  - intros x line (Hs & Hq & Hd & Hp) _.
    destruct (queueLogForSending_trace clock line
                (set_effects (Console (EchoLine line) :: effects x) x)) as (_ & _ & _ & Hsame).
    cbv zeta in Hsame. rewrite (Hsame Hs). cbn [isStopped logQueue set_effects].
    repeat split; auto; [rewrite <- Hd | rewrite <- Hp]; effects_done.
  - intros x v H. exact H.
  - intros x n (Hs & Hq & Hd & Hp) _.
    destruct (processLogQueue_trace clock (set_timers n x)) as (Hs' & _ & _ & _ & Hcase).
    cbv zeta in Hs', Hcase. rewrite Hs'.
    destruct Hcase as [(Hq' & Hd' & Hp' & _)|(m & rest & Hq' & _)].
    + rewrite Hq', Hd', Hp'. auto.
    + cbn in Hq'. congruence.
  - intros x n outcome (Hs & Hq & Hd & Hp) _.
    destruct (resume_trace clock outcome (set_inFlight n x))
      as (Hq' & Hs' & _ & _ & Hd' & _ & _ & Hp' & _).
    cbv zeta in *. rewrite Hq', Hs', Hd', Hp'. auto.
  - intros x (Hs & Hq & Hd & Hp). auto.
  - unfold onSignal. cbv [bind put]. cbn. auto.
Qed.

(** ** Every line at most once *)

Lemma subseq_nil_l {A : Type} (l : list A) : subseq [] l.
Proof. induction l; [apply subseq_nil | apply subseq_skip; assumption]. Qed.

Lemma subseq_refl {A : Type} (l : list A) : subseq l l.
Proof. induction l; [apply subseq_nil | apply subseq_take; assumption]. Qed.

Lemma subseq_tail {A : Type} (x : A) (l1 l2 : list A) : subseq (x :: l1) l2 -> subseq l1 l2.
Proof.
  intros H. remember (x :: l1) as l eqn:Hl. revert x l1 Hl.
  induction H as [|y l l2 H IH|y l l2 H IH]; intros x l1 Hl; [discriminate| |].
  - constructor. eapply IH. exact Hl.
  - injection Hl as -> ->. apply subseq_skip. exact H.
Qed.

Lemma subseq_drop {A : Type} (a b : list A) (x : A) :
  forall l, subseq (a ++ x :: b) l -> subseq (a ++ b) l.
Proof.
  induction a as [|y a IHa]; intros l H; [exact (subseq_tail _ _ _ H)|].
  cbn [app] in *. remember (y :: a ++ x :: b) as l1 eqn:Hl. revert Hl.
  induction H as [|z l1 l2 H IH|z l1 l2 H IH]; intros Hl; [discriminate| |].
  - constructor. apply IH, Hl.
  - injection Hl as -> ->. apply subseq_take. apply IHa, H.
Qed.

Lemma subseq_app_end {A : Type} (l1 l2 l3 : list A) :
  subseq l1 l2 -> subseq l1 (l2 ++ l3).
Proof.
  induction 1; cbn [app]; [apply subseq_nil_l | apply subseq_skip | apply subseq_take]; assumption.
Qed.

Lemma subseq_snoc {A : Type} (l1 l2 : list A) (x : A) :
  subseq l1 l2 -> subseq (l1 ++ [x]) (l2 ++ [x]).
Proof.
  induction 1; cbn [app];
    [apply subseq_take, subseq_nil | apply subseq_skip | apply subseq_take]; assumption.
Qed.

Lemma subseq_length {A : Type} (l1 l2 : list A) :
  subseq l1 l2 -> (List.length l1 <= List.length l2)%nat.
Proof. induction 1; simpl; lia. Qed.

Lemma trimEnd_cons (ch : ascii) (s : string) :
  JS.trimEnd (String ch s) =
  match JS.trimEnd s with
  | EmptyString => if JS.isWhiteSpace ch then EmptyString else String ch EmptyString
  | t => String ch t
  end.
Proof. reflexivity. Qed.

Lemma trimEnd_idempotent (s : string) : JS.trimEnd (JS.trimEnd s) = JS.trimEnd s.
Proof.
  induction s as [|ch s IH]; [reflexivity|]. rewrite trimEnd_cons.
  destruct (JS.trimEnd s) as [|d t] eqn:Ht.
  - destruct (JS.isWhiteSpace ch) eqn:Hws; [reflexivity|].
    rewrite trimEnd_cons. cbn [JS.trimEnd]. rewrite Hws. reflexivity.
  - rewrite trimEnd_cons, IH. reflexivity.
Qed.

Lemma trimStart_length (s : string) :
  (String.length (JS.trimStart s) <= String.length s)%nat.
Proof.
  induction s as [|ch s IH]; cbn [JS.trimStart]; [lia|].
  destruct (JS.isWhiteSpace ch); cbn [String.length]; lia.
Qed.

Lemma trimStart_fixed (s : string) :
  JS.trimStart s = s -> JS.trimStart (JS.trimEnd s) = JS.trimEnd s.
Proof.
  destruct s as [|ch s]; [reflexivity|]. rewrite trimEnd_cons. cbn [JS.trimStart].
  destruct (JS.isWhiteSpace ch) eqn:Hws.
  - intros H. exfalso. pose proof (trimStart_length s) as Hs.
    rewrite H in Hs. cbn [String.length] in Hs. lia.
  - intros _. destruct (JS.trimEnd s); cbn [JS.trimStart]; rewrite Hws; reflexivity.
Qed.

Lemma trimStart_idempotent (s : string) : JS.trimStart (JS.trimStart s) = JS.trimStart s.
Proof.
  induction s as [|ch s IH]; [reflexivity|]. cbn [JS.trimStart].
  destruct (JS.isWhiteSpace ch) eqn:Hws; [exact IH|].
  cbn [JS.trimStart]. rewrite Hws. reflexivity.
Qed.

Lemma trim_idempotent (s : string) : JS.trim (JS.trim s) = JS.trim s.
Proof.
  unfold JS.trim. rewrite (trimStart_fixed (JS.trimStart s)) by apply trimStart_idempotent.
  apply trimEnd_idempotent.
Qed.

Lemma linesOnce_step (clock : nat -> Z) (s : State) :
  linesOnce s -> linesOnce (snd (processLogQueue clock s)).
Proof.
  intros (Hq & Hp & Hw).
  destruct (processLogQueue_trace clock s) as (_ & He & _ & _ & Hcase).
  cbv zeta in He, Hcase. unfold linesOnce. rewrite He.
  destruct Hcase as [(Hq' & Hd' & Hp' & _)|(m & rest & Hq0 & Hq' & Hd' & Hposts & _)].
  - rewrite Hq', Hd', Hp'. auto.
  - rewrite Hq', Hd', <- app_assoc. cbn [app]. rewrite <- Hq0. split; [exact Hq|].
    rewrite map_app. cbn [map].
    destruct Hposts as [[-> _]|(-> & _ & Htext)].
    + split; [apply subseq_app_end, Hp | exact Hw].
    + split; [apply subseq_snoc, Hp|].
      apply Forall_app. split; [exact Hw|]. repeat constructor; [exact Htext|].
      apply trim_idempotent.
Qed.

Lemma linesOnce_reachable (clock : nat -> Z) (events : list Event) :
  linesOnce (run clock events (initial clock)).
Proof.
  apply run_holds.
  - intros s line (Hq & Hp & Hw) _. rewrite queueLogForSending_unfold.
    cbn [isStopped set_effects].
    assert (Hecho : echoed (set_effects (Console (EchoLine line) :: effects s) s)
                    = (echoed s ++ [line])%list) by effects_done.
    assert (Hd : dispatched (set_effects (Console (EchoLine line) :: effects s) s)
                 = dispatched s) by effects_done.
    assert (Hpo : posts (set_effects (Console (EchoLine line) :: effects s) s)
                  = posts s) by effects_done.
    destruct (isStopped s).
    + cbn [snd]. unfold linesOnce. rewrite Hecho, Hd, Hpo. cbn [logQueue set_effects]. split; [apply subseq_app_end, Hq | auto].
    + apply linesOnce_step. unfold linesOnce.
      cbn [logQueue set_logQueue set_effects].
      change (echoed (set_logQueue (enqueue line (logQueue s))
                        (set_effects (Console (EchoLine line) :: effects s) s)))
        with (echoed (set_effects (Console (EchoLine line) :: effects s) s)).
      rewrite Hecho.
      change (dispatched (set_logQueue (enqueue line (logQueue s))
                            (set_effects (Console (EchoLine line) :: effects s) s)))
        with (dispatched (set_effects (Console (EchoLine line) :: effects s) s)).
      change (posts (set_logQueue (enqueue line (logQueue s))
                       (set_effects (Console (EchoLine line) :: effects s) s)))
        with (posts (set_effects (Console (EchoLine line) :: effects s) s)).
      rewrite Hd, Hpo. split; [|auto].
      unfold enqueue. rewrite app_assoc. apply subseq_snoc.
      destruct (MAX_QUEUE_SIZE <=? List.length (logQueue s))%nat; [|exact Hq].
      destruct (logQueue s) as [|oldest waiting]; [exact Hq|].
      cbn [tl]. eapply subseq_drop. exact Hq.
  - intros s v H. exact H.
  - intros s n H _. apply (linesOnce_step clock (set_timers n s)). exact H.
  - intros s n outcome (Hq & Hp & Hw) _.
    destruct (resume_trace clock outcome (set_inFlight n s))
      as (Hq' & _ & _ & _ & Hd' & He' & _ & Hp' & _).
    cbv zeta in *. unfold linesOnce. rewrite Hq', Hd', He', Hp'. auto.
  - intros s (Hq & Hp & Hw). unfold linesOnce. cbn [logQueue set_logQueue].
    change (dispatched (set_logQueue [] (set_isStopped true s))) with (dispatched s).
    change (echoed (set_logQueue [] (set_isStopped true s))) with (echoed s).
    change (posts (set_logQueue [] (set_isStopped true s))) with (posts s).
    rewrite app_nil_r. split; [|auto].
    clear -Hq. induction (logQueue s) as [|x q IH] using rev_ind.
    + rewrite app_nil_r in Hq. exact Hq.
    + apply IH. rewrite app_assoc in Hq.
      replace (dispatched s ++ q)%list with ((dispatched s ++ q) ++ [])%list
        by apply app_nil_r.
      eapply subseq_drop. rewrite <- app_assoc. rewrite <- app_assoc in Hq. exact Hq.
  - unfold linesOnce. cbn. repeat constructor.
Qed.

(** X11.  No line is sent twice and none is invented: in every reachable
    state the lines dispatched so far, followed by the lines still queued,
    are the echoed lines with some left out, in arrival order; the posted
    bodies are the trimmed dispatched lines with some left out, so a
    failed or refused send is never repeated. *)
Theorem every_line_at_most_once (clock : nat -> Z) (events : list Event) :
  let s := run clock events (initial clock) in
  subseq (dispatched s ++ logQueue s) (echoed s) /\
  subseq (posts s) (map JS.trim (dispatched s)) /\
  (List.length (posts s) <= List.length (dispatched s) <= List.length (echoed s))%nat.
Proof.
  cbv zeta. destruct (linesOnce_reachable clock events) as (Hq & Hp & _).
  split; [exact Hq|]. split; [exact Hp|].
  apply subseq_length in Hq, Hp. rewrite length_app in Hq. rewrite length_map in Hp. lia.
Qed.

(** X12.  Every body the service posts is a non-empty string that is its
    own trim, and POST /add-log never answers it with the 400 rejection. *)
Theorem posts_pass_validation (clock : nat -> Z) (events : list Event) (c : Contract) :
  Forall (fun body =>
            JS.truthyString body = true /\ JS.trim body = body /\
            fst (addLogHandler c (JS.Str body)) <> invalidRequest)
    (posts (run clock events (initial clock))).
Proof.
  destruct (linesOnce_reachable clock events) as (_ & _ & Hw).
  eapply Forall_impl; [|exact Hw]. intros body [Htext Htrim].
  split; [exact Htext|]. split; [exact Htrim|].
  assert (Hne : body <> "") by (destruct body; [discriminate Htext | discriminate]).
  rewrite (addLogHandler_string c body Hne).
  destruct (estimateGas c body) as [estimate|error]; [|apply errorResponse_not_invalid].
  cbv zeta. destruct (send c body _); [discriminate | apply errorResponse_not_invalid].
Qed.

(** ** Timers *)

Lemma timersCover_step (clock : nat -> Z) (s : State) :
  Forall (fun d => 0 < d) (timeouts s) ->
  let s' := snd (processLogQueue clock s) in
  (logQueue s' <> [] -> (0 < timers s')%nat) /\ Forall (fun d => 0 < d) (timeouts s').
Proof.
  intros Hpos. destruct (processLogQueue_trace clock s) as (_ & _ & Ht & (delays & Hd & Hnew) & _).
  cbv zeta in *. split; [exact Ht|]. rewrite Hd. apply Forall_app. auto.
Qed.

(** X13.  No queued line is left without a wake-up: in every reachable
    state a non-empty queue comes with at least one pending
    [processLogQueue] timer, and every delay ever passed to [setTimeout]
    is strictly positive. *)
Theorem queued_lines_have_a_timer (clock : nat -> Z) (events : list Event) :
  let s := run clock events (initial clock) in
  (logQueue s <> [] -> (0 < timers s)%nat) /\ Forall (fun d => 0 < d) (timeouts s).
Proof.
  cbv zeta.
  apply (run_holds clock
           (fun s => (logQueue s <> [] -> (0 < timers s)%nat) /\
                     Forall (fun d => 0 < d) (timeouts s))).
  - intros s line [Hq Hpos] _. rewrite queueLogForSending_unfold. cbn [isStopped set_effects].
    assert (Ht : timeouts (set_effects (Console (EchoLine line) :: effects s) s) = timeouts s)
      by effects_done.
    destruct (isStopped s).
    + cbn [snd]. rewrite Ht. auto.
    + apply timersCover_step. rewrite <- Ht in Hpos. exact Hpos.
  - intros s v H. exact H.
  - intros s n [_ Hpos] _. apply timersCover_step. exact Hpos.
  - intros s n outcome [Hq Hpos] _.
    destruct (resume_trace clock outcome (set_inFlight n s))
      as (Hq' & _ & Ht' & _ & _ & _ & Hto & _).
    cbv zeta in *. rewrite Hq', Ht', Hto. auto.
  - intros s [_ Hpos]. split; [intros H; contradiction H; reflexivity | exact Hpos].
  - split; [intros H; contradiction H; reflexivity | constructor].
Qed.

(** ** The daily counter *)



(** ** Outage and reconnection notices *)

Ltac notices_done :=
  unfold outages, reconnections, countNotice, notices; cbn;
  rewrite ?flat_map_app, ?filter_app, ?length_app; cbn; rewrite ?app_nil_r; auto; try lia.

Lemma send_availability (clock : nat -> Z) (message : string) (s : State) :
  let s' := snd (sendLogToBlockchain clock message s) in
  serverAvailable s' = serverAvailable s /\
  outages s' = outages s /\ reconnections s' = reconnections s.
Proof.
  unfold_js. js_cases.
  all: repeat match goal with |- _ /\ _ => split end.
  all: notices_done.
Qed.

Lemma processLogQueue_availability (clock : nat -> Z) (s : State) :
  let s' := snd (processLogQueue clock s) in
  serverAvailable s' = serverAvailable s /\
  outages s' = outages s /\ reconnections s' = reconnections s.
Proof.
  rewrite processLogQueue_unfold. cbv zeta.
  destruct (clock (ticks s) - lastSentTime s <? SEND_INTERVAL_MS).
  - cbv [setTimeout bind get put emit]. cbn. repeat split; notices_done.
  - destruct (logQueue s) as [|message rest] eqn:Hq.
    + cbn. repeat split; notices_done.
    + match goal with
      | |- context [sendLogToBlockchain clock message ?st] =>
          pose proof (send_availability clock message st) as Hsend;
          destruct (sendLogToBlockchain clock message st) as [r s3]
      end.
      cbn [snd] in Hsend |- *. destruct Hsend as (Ha & Ho & Hr).
      assert (Ho' : outages s3 = outages s) by (rewrite Ho; notices_done).
      assert (Hr' : reconnections s3 = reconnections s) by (rewrite Hr; notices_done).
      cbn [serverAvailable set_effects set_lastSentTime set_ticks set_logQueue] in Ha.
      clear Ho Hr.
      destruct (0 <? List.length (logQueue s3))%nat; cbv [when].
      * cbv [setTimeout bind get put emit]. cbn [snd].
        cbn [serverAvailable set_timers set_effects].
        split; [exact Ha|]. split; [rewrite <- Ho' | rewrite <- Hr']; notices_done.
      * cbv [ret]. cbn [snd]. auto.
Qed.

Lemma resume_availability (clock : nat -> Z) (outcome : FetchOutcome) (s : State) :
  let s' := snd (sendLogToBlockchain_resume clock outcome s) in
  (reconnections s + (if serverAvailable s then 0 else 1) <= outages s)%nat ->
  (reconnections s' + (if serverAvailable s' then 0 else 1) <= outages s')%nat.
Proof.
  destruct outcome; unfold_js; js_cases.
  all: intros H; unfold outages, reconnections, countNotice, notices in H; notices_done.
Qed.

Lemma paired_step (clock : nat -> Z) (s : State) :
  (reconnections s + (if serverAvailable s then 0 else 1) <= outages s)%nat ->
  let s' := snd (processLogQueue clock s) in
  (reconnections s' + (if serverAvailable s' then 0 else 1) <= outages s')%nat.
Proof.
  intros H. destruct (processLogQueue_availability clock s) as (Ha & Ho & Hr).
  cbv zeta in *. rewrite Ha, Ho, Hr. exact H.
Qed.

(** X15.  Reconnections answer outages: in every reachable state each
    reconnection notice written so far was preceded by an outage notice of
    its own, and while the server is held to be unavailable there is one
    more outage notice than reconnection notices at least. *)
Theorem reconnections_answer_outages (clock : nat -> Z) (events : list Event) :
  let s := run clock events (initial clock) in
  (reconnections s + (if serverAvailable s then 0 else 1) <= outages s)%nat.
Proof.
  cbv zeta.
  apply (run_holds clock
           (fun s => (reconnections s + (if serverAvailable s then 0 else 1)
                      <= outages s)%nat)).
  - intros s line H _. rewrite queueLogForSending_unfold. cbn [isStopped set_effects].
    assert (Ho : outages (set_effects (Console (EchoLine line) :: effects s) s) = outages s)
      by notices_done.
    assert (Hr : reconnections (set_effects (Console (EchoLine line) :: effects s) s)
                 = reconnections s) by notices_done.
    destruct (isStopped s).
    + cbn [snd]. rewrite Ho, Hr. exact H.
    + apply paired_step. rewrite <- Ho, <- Hr in H. exact H.
  - intros s v H. exact H.
  - intros s n H _. apply paired_step. exact H.
  - intros s n outcome H _. apply resume_availability. exact H.
  - intros s H. exact H.
  - cbn. lia.
Qed.
